(** * psync: a shallow embedding of the diff planner, the filter engine,
    the copy and move primitives and the top-level [sync] of [src/psync.py].

    Conventions of the embedding.
    - Python strings are Rocq [string]s (UTF-8 bytes); byte-wise order on
      UTF-8 is code-point order, so [String.leb] is Python's [<=] on [str].
    - File modification times ([float] in Python) are modelled as [Z]: the
      planner only tests them with [==], [<] and [>], and the finitely many
      timestamps of two snapshots embed into [Z] preserving those tests.
    - The platform is POSIX: [os.sep] is ["/"], there is no [os.altsep].
    - A Python exception is a value of [PyExc]; a generator is the
      writer/exception monad [Gen] below, whose log records both yielded
      operations and [logger.warning] lines. *)

From Stdlib Require Import ZArith Lia Ascii.
From stdpp Require Import base gmap sets list strings sorting pretty.

Open Scope Z_scope.

(** ** Python exceptions *)

Inductive OSErrKind :=
  | FileExistsError
  | FileNotFoundError
  | PermissionError
  | IsADirectoryError
  | NotADirectoryError
  | NoSpaceError          (* ENOSPC: plain OSError *)
  | CrossDeviceError      (* EXDEV: plain OSError *)
  | OtherOSError.

Inductive PyExc :=
  | AssertionError
  | KeyError
  | ValueError
  | TypeError
  | KeyboardInterrupt
  | OSError (k : OSErrKind).

(** ** The generator monad: emitted events, then an outcome. *)

Record Op := mkOp {
  op_kind : string;            (* "D-", "R", "-", "+", "U", "D+" *)
  op_src : option string;
  op_dst : option string;
  op_byte_diff : Z;
  op_summary : string
}.

Inductive Event :=
  | Yield (o : Op)
  | Warn (msg : string).

Definition Gen (A : Type) : Type := list Event * (PyExc + A).

Global Instance Gen_ret : MRet Gen := fun A x => ([], inr x).
Global Instance Gen_bind : MBind Gen := fun A B f m =>
  match m.2 with
  | inl e => (m.1, inl e)
  | inr a => let r := f a in (m.1 ++ r.1, r.2)
  end.

Definition yield (o : Op) : Gen unit := ([Yield o], inr tt).
Definition warn (msg : string) : Gen unit := ([Warn msg], inr tt).
Definition raise {A} (e : PyExc) : Gen A := ([], inl e).

(** [d[k]] on a Python dict: [KeyError] when absent. *)
Definition getitem `{Countable K} {V} (m : gmap K V) (k : K) : Gen V :=
  match m !! k with Some v => mret v | None => raise KeyError end.

(** A [for] loop whose body threads a state. *)
Fixpoint gen_fold {S X} (body : S -> X -> Gen S) (s : S) (l : list X) : Gen S :=
  match l with
  | [] => mret s
  | x :: l' => s' ← body s x ; gen_fold body s' l'
  end.

Definition gen_for {X} (body : X -> Gen unit) (l : list X) : Gen unit :=
  gen_fold (fun _ x => body x) tt l.

(** The operations a generator yielded. *)
Definition yields (evs : list Event) : list Op :=
  omap (fun e => match e with Yield o => Some o | Warn _ => None end) evs.
Definition warnings (evs : list Event) : list string :=
  omap (fun e => match e with Warn m => Some m | Yield _ => None end) evs.

(** ** Snapshots ([_Metadata], [_FileList]) *)

Record Metadata := mkMeta { size : Z; mtime : Z }.

Global Instance Metadata_eq_dec : EqDecision Metadata.
Proof. solve_decision. Defined.
Global Instance Metadata_countable : Countable Metadata.
Proof.
  apply (inj_countable' (fun m => (size m, mtime m)) (fun '(s, t) => mkMeta s t)).
  by intros [].
Defined.

Record FileList := mkFileList {
  root : string;
  relpath_to_stats : gmap string Metadata;
  real_names : gmap string string;
  empty_dirs : gset string
}.

(** [Path(root) / rel] on POSIX, for the relative paths the snapshots hold
    ([_scandir] builds them relative to the root, so [rel] never starts
    with a separator). *)
Definition path_join (r rel : string) : string := r +:+ "/" +:+ rel.

(** Python's [sorted] on a collection of [str]. *)
Definition str_le (x y : string) : Prop := String.leb x y = true.
Global Instance str_le_dec : RelDecision str_le :=
  fun x y => decide (String.leb x y = true).
Definition sorted_str (l : list string) : list string := merge_sort str_le l.

(** [list.remove(x)]: drop the first occurrence, [ValueError] if none. *)
Fixpoint list_remove (x : string) (l : list string) : option (list string) :=
  match l with
  | [] => None
  | y :: l' => if String.eqb x y then Some l'
               else match list_remove x l' with
                    | Some l'' => Some (y :: l'')
                    | None => None
                    end
  end.

Definition remove_or_raise (x : string) (l : list string) : Gen (list string) :=
  match list_remove x l with Some l' => mret l' | None => raise ValueError end.

(** ** [_reverse_dict] *)

(** Swap keys and values of a dict given by its items in iteration order;
    a value met twice maps to [None]. *)
Definition _reverse_dict {K V} `{Countable V} (items : list (K * V)) : gmap V (option K) :=
  foldl (fun rev '(key, val) =>
           if decide (is_Some (rev !! val)) then <[val := None]> rev
           else <[val := Some key]> rev) ∅ items.

(** [{path: stats[path] for path in paths}], as its list of items. *)
Definition dict_comp (stats : gmap string Metadata) (paths : list string)
  : Gen (list (string * Metadata)) :=
  gen_fold (fun acc p => m ← getitem stats p; mret (acc ++ [(p, m)])) [] paths.

(** ** [_operations] *)

(** What the generator reads from disk while it runs: [any(p.iterdir())]
    for the assertion before each directory deletion, and [_last_bytes(p)]
    when contents are compared. [inl k] is an [OSError] of kind [k]. *)
Record FsView := mkFsView {
  fs_iterdir_any : string -> OSErrKind + bool;
  fs_last_bytes : string -> OSErrKind + string
}.

Definition _last_bytes (v : FsView) (p : string) : Gen string :=
  match fs_last_bytes v p with inl k => raise (OSError k) | inr b => mret b end.

Section Operations.
Variables (src_files dst_files : FileList) (v : FsView).

(** Phase 1: destination-only empty directories. *)
Definition ops_delete_dirs : Gen unit :=
  gen_for (fun relpath =>
    dst_relpath_real ← getitem (real_names dst_files) relpath;
    let src := path_join (root dst_files) dst_relpath_real in
    match fs_iterdir_any v src with
    | inl k => raise (OSError k)
    | inr true => raise AssertionError
    | inr false => yield (mkOp "D-" (Some src) None 0 ("- " +:+ dst_relpath_real +:+ "/"))
    end)
    (elements (empty_dirs dst_files ∖ empty_dirs src_files)).

(** One iteration of the rename loop; the state is the pair
    ([src_only_relpaths], [dst_only_relpaths]) that the loop mutates. A
    [KeyError] inside the [try] block ends the iteration ([continue]). *)
Definition rename_step (rename_threshold : Z) (metadata_only : bool)
    (src_rev dst_rev : gmap Metadata (option string))
    (st : list string * list string) (dst_relpath : string)
    : Gen (list string * list string) :=
  let '(src_only, dst_only) := st in
  m ← getitem (relpath_to_stats dst_files) dst_relpath;
  if decide (size m < rename_threshold) then mret st else
  match src_rev !! m with
  | None | Some None => mret st
  | Some (Some rename_to) =>
    match dst_rev !! m with
    | None | Some None => mret st
    | Some (Some rename_from) =>
      same ← (if metadata_only then mret true else
                on_src ← _last_bytes v (path_join (root src_files) rename_to);
                on_dst ← _last_bytes v (path_join (root dst_files) rename_from);
                mret (String.eqb on_src on_dst));
      if negb same then mret st else
      src_only' ← remove_or_raise rename_to src_only;
      dst_only' ← remove_or_raise rename_from dst_only;
      match real_names dst_files !! rename_from, real_names src_files !! rename_to with
      | Some rf, Some rt =>
          yield (mkOp "R" (Some (path_join (root dst_files) rf))
                          (Some (path_join (root dst_files) rt)) 0
                          ("R " +:+ rf +:+ " -> " +:+ rt)) ;;
          mret (src_only', dst_only')
      | _, _ => mret (src_only', dst_only')
      end
    end
  end.

(** Phase 2: renames. Returns the remaining source-only and
    destination-only relative paths. *)
Definition ops_rename (rename_threshold : option Z) (metadata_only : bool)
    (src_only dst_only : list string) : Gen (list string * list string) :=
  match rename_threshold with
  | None => mret (src_only, dst_only)
  | Some t =>
      src_items ← dict_comp (relpath_to_stats src_files) src_only;
      dst_items ← dict_comp (relpath_to_stats dst_files) dst_only;
      gen_fold (rename_step t metadata_only (_reverse_dict src_items) (_reverse_dict dst_items))
               (src_only, dst_only) dst_only
  end.

(** Phase 3: deletions to the trash. *)
Definition ops_delete (trash_root : option string) (dst_only : list string) : Gen unit :=
  match trash_root with
  | None => mret tt
  | Some tr =>
      gen_for (fun dst_relpath =>
        dst_relpath_real ← getitem (real_names dst_files) dst_relpath;
        m ← getitem (relpath_to_stats dst_files) dst_relpath;
        yield (mkOp "-" (Some (path_join (root dst_files) dst_relpath_real))
                        (Some (path_join tr dst_relpath_real)) (- size m)
                        ("- " +:+ dst_relpath_real))) dst_only
  end.

(** Phase 4: creations. *)
Definition ops_create (src_only : list string) : Gen unit :=
  gen_for (fun src_relpath =>
    src_relpath_real ← getitem (real_names src_files) src_relpath;
    m ← getitem (relpath_to_stats src_files) src_relpath;
    yield (mkOp "+" (Some (path_join (root src_files) src_relpath_real))
                    (Some (path_join (root dst_files) src_relpath_real)) (size m)
                    ("+ " +:+ src_relpath_real))) src_only.

(** Phase 5: updates, and the warning when the destination is newer. *)
Definition ops_update (both : list string) : Gen unit :=
  gen_for (fun relpath =>
    src_relpath_real ← getitem (real_names src_files) relpath;
    dst_relpath_real ← getitem (real_names dst_files) relpath;
    ms ← getitem (relpath_to_stats src_files) relpath;
    md ← getitem (relpath_to_stats dst_files) relpath;
    if decide (mtime md < mtime ms) then
      yield (mkOp "U" (Some (path_join (root src_files) src_relpath_real))
                      (Some (path_join (root dst_files) dst_relpath_real))
                      (size ms - size md) ("U " +:+ dst_relpath_real))
    else if decide (mtime ms < mtime md) then
      warn ("Working copy is older than backed-up copy, skipping update: " +:+ relpath)
    else mret tt) both.

(** Phase 6: source-only empty directories. *)
Definition ops_create_dirs : Gen unit :=
  gen_for (fun relpath =>
    src_relpath_real ← getitem (real_names src_files) relpath;
    yield (mkOp "D+" None (Some (path_join (root dst_files) src_relpath_real)) 0
                    ("+ " +:+ src_relpath_real +:+ "/")))
    (elements (empty_dirs src_files ∖ empty_dirs dst_files)).

Definition src_only_relpaths : list string :=
  sorted_str (elements (dom (relpath_to_stats src_files) ∖ dom (relpath_to_stats dst_files))).
Definition dst_only_relpaths : list string :=
  sorted_str (elements (dom (relpath_to_stats dst_files) ∖ dom (relpath_to_stats src_files))).
Definition both_relpaths : list string :=
  sorted_str (elements (dom (relpath_to_stats src_files) ∩ dom (relpath_to_stats dst_files))).

(** [_operations(src_files, dst_files, trash_root=..., rename_threshold=...,
    metadata_only=...)], run to exhaustion or to its first exception. *)
Definition _operations (trash_root : option string) (rename_threshold : option Z)
    (metadata_only : bool) : Gen unit :=
  ops_delete_dirs ;;
  '(src_only, dst_only) ← ops_rename rename_threshold metadata_only
                              src_only_relpaths dst_only_relpaths;
  ops_delete trash_root dst_only ;;
  ops_create src_only ;;
  ops_update both_relpaths ;;
  ops_create_dirs.
End Operations.

(** ** [_Filter]: glob patterns compiled to regular expressions *)

(** Regular expressions of the fragment [glob.translate] produces:
    one character satisfying a predicate ([.], [[^/]], a literal), sequence,
    ordered alternation, greedy star and the lookahead [(?!\.)]. *)
Inductive regex :=
  | REps
  | RChr (p : ascii -> bool)
  | RCat (r1 r2 : regex)
  | RAlt (r1 r2 : regex)
  | RStar (r : regex)
  | RNotDot.

(** Backtracking matcher in continuation-passing style; [k] receives the
    unconsumed suffix. A star iteration must consume input, as in the
    [re] engine, which stops a loop on an empty iteration. *)
Fixpoint re_match (r : regex) (s : list ascii) (k : list ascii -> bool) {struct r} : bool :=
  match r with
  | REps => k s
  | RChr p => match s with c :: s' => p c && k s' | [] => false end
  | RCat r1 r2 => re_match r1 s (fun s' => re_match r2 s' k)
  | RAlt r1 r2 => re_match r1 s k || re_match r2 s k
  | RNotDot => match s with "."%char :: _ => false | _ => k s end
  | RStar r1 =>
      (fix loop (n : nat) (s : list ascii) {struct n} : bool :=
         match n with
         | O => k s
         | S n' =>
             re_match r1 s (fun s' => if (length s' <? length s)%nat then loop n' s' else false)
             || k s
         end) (S (length s)) s
  end.

Definition RPlus (r : regex) : regex := RCat r (RStar r).
Definition ROpt (r : regex) : regex := RAlt r REps.
Definition RSeq (rs : list regex) : regex := foldr RCat REps rs.
Definition RLit (c : ascii) : regex := RChr (fun d => bool_decide (d = c)).

(** [reobj.match(relpath)] on a pattern ending in [\Z]: the whole path. *)
Definition re_fullmatch (r : regex) (s : string) : bool :=
  re_match r (String.list_ascii_of_string s) (fun rest => match rest with [] => true | _ => false end).

(** [glob.translate(pat, recursive=True, include_hidden=ih)] of Python 3.13
    on POSIX ([seps = "/"]). *)
Definition not_sep : regex := RChr (fun c => negb (bool_decide (c = "/"%char))).
Definition any_sep : regex := RLit "/".
Definition any_char : regex := RChr (fun _ => true).

Definition one_last_segment (ih : bool) : regex :=
  if ih then RPlus not_sep
  else RCat (RChr (fun c => negb (bool_decide (c = "/"%char)) && negb (bool_decide (c = "."%char))))
            (RStar not_sep).
Definition one_segment (ih : bool) : regex := RCat (one_last_segment ih) any_sep.
Definition any_segments (ih : bool) : regex :=
  if ih then ROpt (RCat (RPlus any_char) any_sep) else RStar (one_segment ih).
Definition any_last_segments (ih : bool) : regex :=
  if ih then RStar any_char else RCat (any_segments ih) (ROpt (one_last_segment ih)).

(** [re.split('/', pat)]. *)
Fixpoint split_sep (s : list ascii) : list (list ascii) :=
  match s with
  | [] => [[]]
  | c :: rest =>
      if bool_decide (c = "/"%char) then [] :: split_sep rest
      else match split_sep rest with
           | p :: ps => (c :: p) :: ps
           | [] => [[c]]
           end
  end.

(** Whether a ['['] at this point opens a bracket expression of [fnmatch],
    i.e. a closing [']'] follows (after an optional ['!'] and an optional
    leading [']']). *)
Definition bracket_closes (rest : list ascii) : bool :=
  let r1 := match rest with "!"%char :: r => r | _ => rest end in
  let r2 := match r1 with "]"%char :: r => r | _ => r1 end in
  bool_decide ("]"%char ∈ r2).

(** [fnmatch._translate(part, STAR, QUESTION_MARK)]: consecutive stars are
    compressed. Bracket expressions are outside the modelled fragment
    ([None]); an unclosed ['['] is a literal, as in [fnmatch]. *)
Fixpoint fnmatch_translate (star qm : regex) (prev_star : bool) (pat : list ascii)
    : option (list regex) :=
  match pat with
  | [] => Some []
  | c :: rest =>
      if bool_decide (c = "*"%char) then
        if prev_star then fnmatch_translate star qm true rest
        else cons star <$> fnmatch_translate star qm true rest
      else if bool_decide (c = "?"%char) then cons qm <$> fnmatch_translate star qm false rest
      else if bool_decide (c = "["%char) then
        if bracket_closes rest then None
        else cons (RLit c) <$> fnmatch_translate star qm false rest
      else cons (RLit c) <$> fnmatch_translate star qm false rest
  end.

Fixpoint translate_parts (recursive ih : bool) (parts : list (list ascii)) : option (list regex) :=
  match parts with
  | [] => Some []
  | part :: rest =>
      let is_last := match rest with [] => true | _ => false end in
      if bool_decide (part = ["*"%char]) then
        cons (if is_last then one_last_segment ih else one_segment ih)
          <$> translate_parts recursive ih rest
      else if recursive && bool_decide (part = ["*"%char; "*"%char]) then
        match rest with
        | [] => Some [any_last_segments ih]
        | next :: _ =>
            if bool_decide (next = ["*"%char; "*"%char]) then translate_parts recursive ih rest
            else cons (any_segments ih) <$> translate_parts recursive ih rest
        end
      else
        let hidden :=
          match part with
          | c :: _ => if negb ih && bool_decide (c = "*"%char \/ c = "?"%char) then [RNotDot] else []
          | [] => []
          end in
        body ← (match part with [] => Some [] | _ => fnmatch_translate (RStar not_sep) not_sep false part end);
        tl ← translate_parts recursive ih rest;
        Some (hidden ++ body ++ (if is_last then [] else [any_sep]) ++ tl)
  end.

Definition glob_translate (pat : list ascii) (recursive include_hidden : bool) : option regex :=
  RSeq <$> translate_parts recursive include_hidden (split_sep pat).

(** *** Parsing the filter string *)

(** [\s] and [str.strip()] on the ASCII range. *)
Definition is_space (c : ascii) : bool :=
  let n := nat_of_ascii c in ((9 <=? n) && (n <=? 13) || (28 <=? n) && (n <=? 32))%nat.

Definition dquote : ascii := ascii_of_nat 34.
Definition is_quote (c : ascii) : bool := bool_decide (c = "'"%char \/ c = dquote).

Fixpoint span_space (s : list ascii) : list ascii * list ascii :=
  match s with
  | c :: r => if is_space c then let '(ws, r') := span_space r in (c :: ws, r') else ([], s)
  | [] => ([], [])
  end.

Fixpoint span_nonspace (s : list ascii) : list ascii * list ascii :=
  match s with
  | c :: r => if is_space c then ([], s) else let '(t, r') := span_nonspace r in (c :: t, r')
  | [] => ([], [])
  end.

(** The text up to the first [q] and the text after it. *)
Fixpoint upto (q : ascii) (s : list ascii) : option (list ascii * list ascii) :=
  match s with
  | [] => None
  | c :: r => if bool_decide (c = q) then Some ([], r)
              else (fun '(b, r') => (c :: b, r')) <$> upto q r
  end.

Definition strip (s : list ascii) : list ascii :=
  rev (snd (span_space (rev (snd (span_space s))))).

(** One match of the token regex of [_Filter.__init__] at the start of [s]:
    a single- or double-quoted string, else a run of two or more non-space
    characters, else one character that is neither white space nor a sign;
    the alternatives are tried in this order. Returns the token and the rest. *)
Definition tok (s : list ascii) : option (list ascii * list ascii) :=
  match s with
  | [] => None
  | c :: r =>
      match (if is_quote c then upto c r else None) with
      | Some (body, rest) => Some (c :: body ++ [c], rest)
      | None =>
          let '(run, rest) := span_nonspace s in
          if (2 <=? length run)%nat then Some (run, rest)
          else if negb (is_space c) && negb (bool_decide (c = "+"%char \/ c = "-"%char))
          then Some ([c], r) else None
      end
  end.


(** The group [((?:TOKEN\s* )+)]: tokens each followed by white space, as
    many as match. The rest of the pattern is empty, so the greedy first
    choice at each step is the match; [fuel] bounds the steps, each of
    which consumes input. *)
Fixpoint tok_group (fuel : nat) (s : list ascii) : list ascii * list ascii :=
  match fuel with
  | O => ([], s)
  | S f =>
      match tok s with
      | None => ([], s)
      | Some (t, r) =>
          let '(ws, r') := span_space r in
          let '(g, r'') := tok_group f r' in
          (t ++ ws ++ g, r'')
      end
  end.

(** [re.findall] of the rule regex [(\+|-)\s+(TOKENS)]: pairs of the sign
    and the text of its patterns. A failed attempt moves on by one char. *)
Fixpoint findall_rules (fuel : nat) (s : list ascii) : list (ascii * list ascii) :=
  match fuel with
  | O => []
  | S f =>
      match s with
      | [] => []
      | c :: r =>
          if bool_decide (c = "+"%char \/ c = "-"%char) then
            match span_space r with
            | ([], _) => findall_rules f r
            | (_, r1) =>
                match tok_group (length r1) r1 with
                | ([], _) => findall_rules f r
                | (g, r2) => (c, g) :: findall_rules f r2
                end
            end
          else findall_rules f r
      end
  end.

(** [re.findall] of the token regex over the text of one rule's patterns. *)
Fixpoint findall_tokens (fuel : nat) (s : list ascii) : list (list ascii) :=
  match fuel with
  | O => []
  | S f =>
      match s with
      | [] => []
      | _ :: r =>
          match tok s with
          | Some (t, rest) => t :: findall_tokens f rest
          | None => findall_tokens f r
          end
      end
  end.

(** [pattern[1:-1]] on a quoted token. *)
Definition strip_quotes (p : list ascii) : list ascii :=
  match p with
  | c :: _ => if is_quote c then take (length p - 2) (drop 1 p) else p
  | [] => p
  end.

Definition is_slash (c : ascii) : bool := bool_decide (c = "/"%char \/ c = "\"%char).

Definition strip_dot_slash (p : list ascii) : list ascii :=
  match p with
  | "."%char :: c :: r => if is_slash c then r else p
  | _ => p
  end.

Fixpoint has_inner_dotdot (p : list ascii) : bool :=
  match p with
  | c :: (("."%char :: "."%char :: d :: _) as r) =>
      (is_slash c && is_slash d) || has_inner_dotdot r
  | _ :: r => has_inner_dotdot r
  | [] => false
  end.

Definition newline : ascii := ascii_of_nat 10.

(** The four tests of [_Filter.__init__] for a parent reference: the
    pattern [..], the regex [^\\.\.[\\/]] (a backslash, any character but
    a newline, a dot, a separator), a separated [..] inside, and the regex
    [[\\/]\.\.$], where [$] also matches before a final newline. *)
Definition parent_ref (p : list ascii) : bool :=
  bool_decide (p = ["."%char; "."%char])
  || match p with
     | b :: x :: "."%char :: d :: _ =>
         bool_decide (b = "\"%char) && negb (bool_decide (x = newline)) && is_slash d
     | _ => false
     end
  || has_inner_dotdot p
  || match rev p with
     | "."%char :: "."%char :: c :: _ => is_slash c
     | n :: "."%char :: "."%char :: c :: _ => bool_decide (n = newline) && is_slash c
     | _ => false
     end.

(** [os.path.isabs] on POSIX. *)
Definition isabs (p : list ascii) : bool :=
  match p with "/"%char :: _ => true | _ => false end.

Fixpoint drop_while (P : ascii -> bool) (s : list ascii) : list ascii :=
  match s with
  | c :: r => if P c then drop_while P r else s
  | [] => []
  end.

(** [os.path.dirname] on POSIX: the text up to the last separator, with
    trailing separators removed unless it consists of separators only. *)
Definition dirname (p : list ascii) : list ascii :=
  let head := rev (drop_while (fun c => negb (bool_decide (c = "/"%char))) (rev p)) in
  if bool_decide (Exists (fun c => c <> "/"%char) head)
  then rev (drop_while (fun c => bool_decide (c = "/"%char)) (rev head))
  else head.

(** *** [_Filter.__init__] and [_Filter.filter] *)

(** A compiled rule: the action ([True] for [+]) and the regex. *)
Definition Rule : Type := bool * regex.

(** [__init__] either raises, or builds the rules; [None] marks a pattern
    with a bracket expression, outside the modelled fragment. *)
Definition FInit (A : Type) : Type := option (PyExc + A).

Definition finit_bind {A B} (m : FInit A) (f : A -> FInit B) : FInit B :=
  match m with
  | None => None
  | Some (inl e) => Some (inl e)
  | Some (inr a) => f a
  end.

Definition FilterState : Type := list (list ascii) * list Rule.

(** The loop adding an include rule for each parent directory of an
    include pattern, until [dirname] gives [""] or a directory already
    in [implicit_dirs]. [dirname] shortens a relative path, so [fuel]
    [length pattern + 1] is never exhausted. *)
Fixpoint implicit_parents (fuel : nat) (ih : bool) (pattern : list ascii) (st : FilterState)
    : FInit FilterState :=
  match fuel with
  | O => Some (inr st)
  | S f =>
      let pattern' := dirname pattern in
      if bool_decide (pattern' = []) then Some (inr st)
      else if bool_decide (pattern' ∈ st.1) then Some (inr st)
      else match glob_translate (pattern' ++ ["/"%char]) true ih with
           | None => None
           | Some r => implicit_parents f ih pattern' (st.1 ++ [pattern'], st.2 ++ [(true, r)])
           end
  end.

Definition pattern_step (ignore_hidden action : bool) (st : FilterState) (token : list ascii)
    : FInit FilterState :=
  let pattern := strip_dot_slash (strip_quotes token) in
  if parent_ref pattern then Some (inl ValueError)
  else if isabs pattern then Some (inl ValueError)
  else if bool_decide (pattern = []) then Some (inr st)
  else match glob_translate pattern true (negb ignore_hidden) with
       | None => None
       | Some r =>
           let st1 := (st.1, st.2 ++ [(action, r)]) in
           if action then implicit_parents (S (length pattern)) (negb ignore_hidden) pattern st1
           else Some (inr st1)
       end.

Fixpoint fold_patterns (ignore_hidden action : bool) (st : FilterState) (ps : list (list ascii))
    : FInit FilterState :=
  match ps with
  | [] => Some (inr st)
  | p :: ps' => finit_bind (pattern_step ignore_hidden action st p)
                  (fun st' => fold_patterns ignore_hidden action st' ps')
  end.

Definition rule_step (ignore_hidden : bool) (st : FilterState) (rule : ascii * list ascii)
    : FInit FilterState :=
  let action := bool_decide (rule.1 = "+"%char) in
  let st0 := if action then st else ([], st.2) in
  fold_patterns ignore_hidden action st0 (findall_tokens (length rule.2) rule.2).

Fixpoint fold_rules (ignore_hidden : bool) (st : FilterState) (rs : list (ascii * list ascii))
    : FInit FilterState :=
  match rs with
  | [] => Some (inr st)
  | r :: rs' => finit_bind (rule_step ignore_hidden st r)
                  (fun st' => fold_rules ignore_hidden st' rs')
  end.

Definition _Filter_init (filter_string : string) (ignore_hidden : bool) : FInit (list Rule) :=
  let s := strip (String.list_ascii_of_string filter_string) in
  finit_bind (fold_rules ignore_hidden ([], []) (findall_rules (length s) s))
    (fun st => Some (inr st.2)).

Fixpoint _Filter_filter (patterns : list Rule) (relpath : string) (default : bool) : bool :=
  match patterns with
  | [] => default
  | (action, reobj) :: ps =>
      if re_fullmatch reobj relpath then action else _Filter_filter ps relpath default
  end.

(** *** Helpers for reasoning about compiled patterns *)

(** The loop [re_match] runs for [RStar r1] with continuation [k]. *)
Definition star_loop (r1 : regex) (k : list ascii -> bool) : nat -> list ascii -> bool :=
  fix loop (n : nat) (s : list ascii) {struct n} : bool :=
    match n with
    | O => k s
    | S n' =>
        re_match r1 s (fun s' => if (length s' <? length s)%nat then loop n' s' else false)
        || k s
    end.

(** ['/'.join(parts)], the inverse of [split_sep]. *)
Fixpoint join_sep (parts : list (list ascii)) : list ascii :=
  match parts with
  | [] => []
  | [p] => p
  | p :: ps => p ++ "/"%char :: join_sep ps
  end.

(** A character with no meaning in a glob pattern of the modelled fragment. *)
Definition plain_char (c : ascii) : Prop := c <> "*"%char /\ c <> "?"%char /\ c <> "["%char.

(** ** [_copy]: the file system with injected faults *)

(** A regular file: its bytes, its permission bits and its mtime. *)
Record FileObj := mkFile { fdata : string; fmode : Z; fmtime : Z }.

(** An absolute path as its list of components: [/d/f] is [["d"; "f"]]. *)
Definition Path : Type := list string.

(** A POSIX file system: the paths of regular files and of directories
    (the root [[]] is always a directory). *)
Record Disk := mkDisk { fs_files : gmap Path FileObj; fs_dirs : gset Path }.

Definition is_dir_in (fs : Disk) (p : Path) : bool := bool_decide (p = [] \/ p ∈ fs_dirs fs).
Definition is_file_in (fs : Disk) (p : Path) : bool := bool_decide (p ∈ dom (fs_files fs)).

(** [Path.parent], [Path.name] and [Path.with_name]. *)
Definition parent (p : Path) : Path := removelast p.
Definition name (p : Path) : string := default "" (last p).

Definition S_IREAD : Z := 256.    (* 0o400 *)
Definition S_IWRITE : Z := 128.   (* 0o200 *)
Definition default_mode : Z := 420.   (* 0o644, a new file under umask 022 *)

(** The state of a run of [_copy]: the file system, the number of system
    calls made so far (the index into the fault oracle) and the locals
    [delete_tmp] and [make_readonly] that the [finally] blocks read. *)
Record CopyState := mkCS {
  cs_fs : Disk;
  cs_tick : nat;
  cs_delete_tmp : bool;
  cs_make_readonly : bool
}.

(** Statements that may raise. *)
Definition CM (A : Type) : Type := CopyState -> CopyState * (PyExc + A).

Global Instance CM_ret : MRet CM := fun A a st => (st, inr a).
Global Instance CM_bind : MBind CM := fun A B f m st =>
  match m st with
  | (st', inr a) => f a st'
  | (st', inl e) => (st', inl e)
  end.

Definition cm_raise {A} (e : PyExc) : CM A := fun st => (st, inl e).
Definition cm_get : CM CopyState := fun st => (st, inr st).
Definition cm_put (st : CopyState) : CM unit := fun _ => (st, inr tt).

(** [try: m finally: fin]: a raising [fin] replaces the outcome of [m]. *)
Definition try_finally {A} (m : CM A) (fin : CM unit) : CM A := fun st =>
  let '(st1, r) := m st in
  match fin st1 with
  | (st2, inl e) => (st2, inl e)
  | (st2, inr _) => (st2, r)
  end.

(** [try: m except PermissionError as e: h e]. *)
Definition try_except_perm {A} (m : CM A) (h : PyExc -> CM A) : CM A := fun st =>
  match m st with
  | (st1, inl (OSError PermissionError)) => h (OSError PermissionError) st1
  | res => res
  end.

Section Copy.
(** [fault n]: the error the [n]-th system call fails with, if any (a full
  disk, a permission or an I/O error the state does not predict). *)
Variable fault : nat -> option OSErrKind.

(** One system call: the injected fault, else its effect on the file system. *)
Definition syscall {A} (act : Disk -> OSErrKind + (Disk * A)) : CM A := fun st =>
let st' := {| cs_fs := cs_fs st; cs_tick := S (cs_tick st);
              cs_delete_tmp := cs_delete_tmp st; cs_make_readonly := cs_make_readonly st |} in
match fault (cs_tick st) with
| Some k => (st', inl (OSError k))
| None =>
    match act (cs_fs st) with
    | inl k => (st', inl (OSError k))
    | inr (fs', a) =>
        ({| cs_fs := fs'; cs_tick := S (cs_tick st);
            cs_delete_tmp := cs_delete_tmp st; cs_make_readonly := cs_make_readonly st |}, inr a)
    end
end.

Definition set_delete_tmp (b : bool) : CM unit := fun st =>
({| cs_fs := cs_fs st; cs_tick := cs_tick st;
    cs_delete_tmp := b; cs_make_readonly := cs_make_readonly st |}, inr tt).
Definition set_make_readonly (b : bool) : CM unit := fun st =>
({| cs_fs := cs_fs st; cs_tick := cs_tick st;
    cs_delete_tmp := cs_delete_tmp st; cs_make_readonly := b |}, inr tt).

(** Queries that do not fail: [Path.exists], [Path.is_file]. *)
Definition path_exists (p : Path) : CM bool := fun st =>
(st, inr (is_file_in (cs_fs st) p || is_dir_in (cs_fs st) p)).
Definition is_file (p : Path) : CM bool := fun st => (st, inr (is_file_in (cs_fs st) p)).

(** [Path.samefile]: [os.stat] of both; without hard links, equal paths. *)
Definition samefile (p q : Path) : CM bool :=
syscall (fun fs =>
  if negb (is_file_in fs p || is_dir_in fs p) then inl FileNotFoundError
  else if negb (is_file_in fs q || is_dir_in fs q) then inl FileNotFoundError
  else inr (fs, bool_decide (p = q))).

(** [Path.mkdir(parents=True, exist_ok=True)]: each missing ancestor is
  created; an existing file in the way fails the call. *)
Definition mkdir_parents (d : Path) : CM unit :=
syscall (fun fs =>
  let prefixes := map (fun n => take n d) (seq 1 (length d)) in
  if bool_decide (Exists (fun q => is_file_in fs q = true) prefixes)
  then inl (if is_file_in fs d then FileExistsError else NotADirectoryError)
  else inr (mkDisk (fs_files fs) (list_to_set prefixes ∪ fs_dirs fs), tt)).

(** [os.replace(a, b)]. *)
Definition replace (a b : Path) : CM unit :=
syscall (fun fs =>
  match fs_files fs !! a with
  | None => inl (if is_dir_in fs a then IsADirectoryError else FileNotFoundError)
  | Some f =>
      if is_dir_in fs b then inl IsADirectoryError
      else if negb (is_dir_in fs (parent b)) then inl FileNotFoundError
      else inr (mkDisk (<[b := f]> (delete a (fs_files fs))) (fs_dirs fs), tt)
  end).

(** [Path.stat().st_mode]: the permission bits and [S_IFREG]. *)
Definition stat_mode (p : Path) : CM Z :=
syscall (fun fs =>
  match fs_files fs !! p with
  | Some f => inr (fs, Z.lor 32768 (fmode f))
  | None => if is_dir_in fs p then inr (fs, Z.lor 16384 493) else inl FileNotFoundError
  end).

(** [Path.chmod] of a regular file. *)
Definition chmod (p : Path) (m : Z) : CM unit :=
syscall (fun fs =>
  match fs_files fs !! p with
  | Some f => inr (mkDisk (<[p := mkFile (fdata f) m (fmtime f)]> (fs_files fs)) (fs_dirs fs), tt)
  | None => if is_dir_in fs p then inr (fs, tt) else inl FileNotFoundError
  end).

(** [Path.unlink]. *)
Definition unlink (p : Path) : CM unit :=
syscall (fun fs =>
  if is_file_in fs p then inr (mkDisk (delete p (fs_files fs)) (fs_dirs fs), tt)
  else inl (if is_dir_in fs p then IsADirectoryError else FileNotFoundError)).

(** The system calls of [shutil.copy2(src, dst)]: [copyfile] opens the
  source, creates or truncates the destination, writes the data, and
  [copystat] copies the mode and mtime. A failure leaves whatever the
  calls before it did; [shutil] removes nothing. *)
Definition open_read (src : Path) : CM FileObj :=
syscall (fun fs =>
  match fs_files fs !! src with
  | Some f => inr (fs, f)
  | None => inl (if is_dir_in fs src then IsADirectoryError else FileNotFoundError)
  end).

Definition open_write (dst : Path) : CM unit :=
syscall (fun fs =>
  if is_dir_in fs dst then inl IsADirectoryError
  else if negb (is_dir_in fs (parent dst)) then inl FileNotFoundError
  else match fs_files fs !! dst with
       | Some f =>
           if bool_decide (Z.land (fmode f) S_IWRITE = 0) then inl PermissionError
           else inr (mkDisk (<[dst := mkFile "" (fmode f) (fmtime f)]> (fs_files fs)) (fs_dirs fs), tt)
       | None => inr (mkDisk (<[dst := mkFile "" default_mode 0]> (fs_files fs)) (fs_dirs fs), tt)
       end).

Definition write_data (dst : Path) (data : string) : CM unit :=
syscall (fun fs =>
  match fs_files fs !! dst with
  | Some f => inr (mkDisk (<[dst := mkFile data (fmode f) (fmtime f)]> (fs_files fs)) (fs_dirs fs), tt)
  | None => inl FileNotFoundError
  end).

Definition copystat (src dst : Path) : CM unit :=
syscall (fun fs =>
  match fs_files fs !! src, fs_files fs !! dst with
  | Some s, Some d => inr (mkDisk (<[dst := mkFile (fdata d) (fmode s) (fmtime s)]> (fs_files fs)) (fs_dirs fs), tt)
  | _, _ => inl FileNotFoundError
  end).

Definition copy2 (src dst : Path) : CM unit :=
st ← cm_get;
let dst' := if is_dir_in (cs_fs st) dst then dst ++ [name src] else dst in
f ← open_read src;
open_write dst';;
write_data dst' (fdata f);;
copystat src dst'.

Definition with_name (p : Path) (n : string) : Path := parent p ++ [n].

(** The checks [_copy] makes when [dst] exists. *)
Definition copy_check_dst (src dst : Path) (exist_ok : bool) : CM unit :=
e ← path_exists dst;
if (e : bool) then
  if negb exist_ok then cm_raise (OSError FileExistsError)
  else (f ← is_file dst;
        if negb (f : bool) then cm_raise (OSError FileExistsError)
        else (same ← samefile src dst;
              if (same : bool) then cm_raise (OSError FileExistsError) else mret tt))
else mret tt.

(** [dst_tmp.replace(dst)] retried once after clearing a read-only flag,
  the handler of [except PermissionError as e]. *)
Definition replace_readonly (dst_tmp dst : Path) (e : PyExc) : CM unit :=
set_make_readonly false;;
try_finally
  (m ← stat_mode dst;
   if bool_decide (Z.land m S_IREAD = 0) then cm_raise e
   else (chmod dst S_IWRITE;;
         set_make_readonly true;;
         replace dst_tmp dst;;
         set_delete_tmp false))
  (st ← cm_get; if cs_make_readonly st then chmod dst S_IREAD else mret tt).

Definition tempcopy (dst : Path) : Path := with_name dst (name dst +:+ ".tempcopy").

(** [_copy(src, dst, exist_ok=exist_ok)]. *)
Definition _copy (src dst : Path) (exist_ok : bool) : CM unit :=
copy_check_dst src dst exist_ok;;
set_delete_tmp false;;
(if bool_decide (dst = []) then cm_raise ValueError else mret tt);;
let dst_tmp := tempcopy dst in
try_finally
  (mkdir_parents (parent dst);;
   copy2 src dst_tmp;;
   set_delete_tmp true;;
   try_except_perm
     (replace dst_tmp dst;; set_delete_tmp false)
     (replace_readonly dst_tmp dst))
  (st ← cm_get; if cs_delete_tmp st then unlink dst_tmp else mret tt).

End Copy.

(** ** [_move] and [_delete_empty_dirs] *)

Section Move.
(** Whether the file system folds case (as NTFS and APFS do by default).
  Its entries are stored under their folded path; ASCII letters fold. *)
Variable case_insensitive : bool.

Definition fold_char (c : ascii) : ascii :=
let n := nat_of_ascii c in
if case_insensitive && (65 <=? n)%nat && (n <=? 90)%nat then ascii_of_nat (n + 32) else c.
Definition fold_name (s : string) : string :=
String.string_of_list_ascii (map fold_char (String.list_ascii_of_string s)).
Definition key (p : Path) : Path := map fold_name p.

(** Statements over the disk that may raise. *)
Definition DM (A : Type) : Type := Disk -> Disk * (PyExc + A).

Global Instance DM_ret : MRet DM := fun A a d => (d, inr a).
Global Instance DM_bind : MBind DM := fun A B f m d =>
match m d with
| (d', inr a) => f a d'
| (d', inl e) => (d', inl e)
end.

Definition dm_raise {A} (e : PyExc) : DM A := fun d => (d, inl e).

(** [try: m except OSError as e: logger.warning(str(e))]. *)
Definition dm_catch_os (m : DM unit) : DM unit := fun d =>
match m d with
| (d', inl (OSError _)) => (d', inr tt)
| res => res
end.

Definition m_is_file (p : Path) : DM bool := fun d => (d, inr (is_file_in d (key p))).
Definition m_is_dir (p : Path) : DM bool := fun d => (d, inr (is_dir_in d (key p))).
Definition m_exists (p : Path) : DM bool := fun d =>
(d, inr (is_file_in d (key p) || is_dir_in d (key p))).

(** [Path.samefile]: on one disk, paths with the same folded name. *)
Definition m_samefile (p q : Path) : DM bool := fun d =>
if negb (is_file_in d (key p) || is_dir_in d (key p)) then (d, inl (OSError FileNotFoundError))
else if negb (is_file_in d (key q) || is_dir_in d (key q)) then (d, inl (OSError FileNotFoundError))
else (d, inr (bool_decide (key p = key q))).

(** [Path.mkdir(parents=True, exist_ok=True)]. *)
Definition m_mkdir_parents (dir : Path) : DM unit := fun d =>
let k := key dir in
let prefixes := map (fun n => take n k) (seq 1 (length k)) in
if bool_decide (Exists (fun q => is_file_in d q = true) prefixes)
then (d, inl (OSError (if is_file_in d k then FileExistsError else NotADirectoryError)))
else (mkDisk (fs_files d) (list_to_set prefixes ∪ fs_dirs d), inr tt).

(** [os.replace(src, dst)] of a regular file. The planner moves regular
  files only; a directory source is outside the model and raises. *)
Definition m_replace (a b : Path) : DM unit := fun d =>
match fs_files d !! key a with
| None => (d, inl (OSError (if is_dir_in d (key a) then IsADirectoryError else FileNotFoundError)))
| Some f =>
    if is_dir_in d (key b) then (d, inl (OSError IsADirectoryError))
    else if negb (is_dir_in d (key (parent b))) then (d, inl (OSError FileNotFoundError))
    else (mkDisk (<[key b := f]> (delete (key a) (fs_files d))) (fs_dirs d), inr tt)
end.

(** [any(dir.iterdir())]. *)
Definition m_iterdir_any (dir : Path) : DM bool := fun d =>
let k := key dir in
if negb (is_dir_in d k) then (d, inl (OSError (if is_file_in d k then NotADirectoryError else FileNotFoundError)))
else (d, inr (bool_decide (Exists (fun q => q <> [] /\ removelast q = k)
                             (elements (dom (fs_files d)) ++ elements (fs_dirs d))))).

(** [Path.rmdir]. *)
Definition m_rmdir (dir : Path) : DM unit := fun d =>
let k := key dir in
if bool_decide (k = []) then (d, inl (OSError OtherOSError))
else if negb (is_dir_in d k) then (d, inl (OSError (if is_file_in d k then NotADirectoryError else FileNotFoundError)))
else if bool_decide (Exists (fun q => q <> [] /\ removelast q = k)
                        (elements (dom (fs_files d)) ++ elements (fs_dirs d)))
then (d, inl (OSError OtherOSError))
else (mkDisk (fs_files d) (fs_dirs d ∖ {[k]}), inr tt).

(** The loop [while dir != root and not any(dir.iterdir()): dir.rmdir();
  dir = dir.parent]. [Path] equality compares the components as
  written. Each turn shortens [dir], which [root] prefixes, so [fuel]
  [length dir + 1] is never exhausted. *)
Fixpoint delete_loop (fuel : nat) (dir root : Path) : DM unit :=
match fuel with
| O => mret tt
| S f =>
    if bool_decide (dir = root) then mret tt
    else any ← m_iterdir_any dir;
         if (any : bool) then mret tt
         else (m_rmdir dir;; delete_loop f (parent dir) root)
end.

Definition _delete_empty_dirs (dir root : Path) : DM unit :=
isd ← m_is_dir dir;
if negb (isd : bool) then dm_raise ValueError
else if negb (bool_decide (root `prefix_of` dir)) then dm_raise ValueError
else dm_catch_os (delete_loop (S (length dir)) dir root).

(** [_move(src, dst, exist_ok=exist_ok, delete_empty_dirs_under=under)]. *)
Definition move_check_dst (src dst : Path) (exist_ok : bool) : DM unit :=
e ← m_exists dst;
if (e : bool) then
  if negb exist_ok then dm_raise (OSError FileExistsError)
  else (f ← m_is_file dst;
        if negb (f : bool) then dm_raise (OSError FileExistsError)
        else (same ← m_samefile src dst;
              if (same : bool) then dm_raise (OSError FileExistsError) else mret tt))
else mret tt.

Definition _move (src dst : Path) (exist_ok : bool) (under : option Path) : DM unit :=
move_check_dst src dst exist_ok;;
m_mkdir_parents (parent dst);;
m_replace src dst;;
match under with
| Some root => _delete_empty_dirs (parent src) root
| None => mret tt
end.

End Move.

(** ** [sync] *)

Fixpoint drop_to_sep (s : list ascii) : list ascii :=
  match s with
  | c :: r => if bool_decide (c = "/"%char) then s else drop_to_sep r
  | [] => []
  end.

(** The Python values passed to [sync]: [isinstance(x, int)] also holds of
    a [bool]. *)
Inductive PyObj :=
  | PStr (s : string)
  | PPathLike (s : string)   (* an [os.PathLike], e.g. a [Path] *)
  | PInt (z : Z)
  | PBool (b : bool)
  | PNone
  | POther.

Definition is_str_or_pathlike (x : PyObj) : bool :=
  match x with PStr _ | PPathLike _ => true | _ => false end.
Definition is_int (x : PyObj) : bool :=
  match x with PInt _ | PBool _ => true | _ => false end.
Definition is_bool (x : PyObj) : bool :=
  match x with PBool _ => true | _ => false end.
Definition is_none (x : PyObj) : bool :=
  match x with PNone => true | _ => false end.
(** [str(x)] of a path argument, [os.fspath] of a path-like. *)
Definition path_of (x : PyObj) : string :=
  match x with PStr s | PPathLike s => s | _ => "" end.
(** [x == "auto"]: a [Path] never equals a [str]. *)
Definition is_auto (x : PyObj) : bool :=
  match x with PStr s => bool_decide (s = "auto") | _ => false end.
Definition int_of (x : PyObj) : Z :=
  match x with PInt z => z | PBool true => 1 | _ => 0 end.

Record SyncArgs := mkSyncArgs {
  a_src : PyObj; a_dst : PyObj; a_trash : PyObj; a_filter : PyObj;
  a_ignore_hidden : PyObj; a_follow_symlinks : PyObj; a_rename_threshold : PyObj;
  a_metadata_only : PyObj; a_dry_run : PyObj; a_log : PyObj;
  a_debug : PyObj; a_quiet : PyObj; a_veryquiet : PyObj
}.

(** What [sync] observes of the machine. Paths are the strings [Path]
    prints. [w_apply o] is the outcome of carrying out operation [o] in
    the loop ([_move], [_copy], [os.makedirs] or [_delete_empty_dirs]):
    [None] on success, else the exception it raises. *)
Record World := mkWorld {
  w_time_ms : Z;
  w_home : string;
  w_exists : string -> bool;
  w_is_dir : string -> bool;
  w_resolve : string -> string;
  w_st_dev : string -> PyExc + Z;         (* [os.stat(p).st_dev], after the [makedirs] *)
  w_makedirs : string -> option PyExc;
  w_tempfile : PyExc + string;            (* [NamedTemporaryFile(delete=False)] *)
  w_scandir : string -> PyExc + FileList;  (* [_scandir] of a root *)
  w_view : FsView;                         (* the reads of [_operations] *)
  w_apply : Op -> option PyExc;
  w_replace : string -> string -> option OSErrKind   (* [Path.replace] *)
}.

Record Results := mkResults {
  trash_root_r : option string;
  log_file_r : option string;
  success : bool;
  errors : list string;
  create_success : Z; rename_success : Z; update_success : Z; delete_success : Z;
  create_error : Z; rename_error : Z; update_error : Z; delete_error : Z;
  byte_diff : Z;
  dir_create_success : Z; dir_create_error : Z;
  dir_delete_success : Z; dir_delete_error : Z
}.

Definition Results_init : Results :=
  mkResults None None false [] 0 0 0 0 0 0 0 0 0 0 0 0 0.

(** The locals of [sync] the [finally] block reads, and the results. *)
Record SyncLocals := mkLocals {
  l_results : Results;
  l_log_file : option string;
  l_tmp_log_file : option string;
  l_handler_file : bool
}.

Definition SM (A : Type) : Type := SyncLocals -> SyncLocals * (PyExc + A).

Global Instance SM_ret : MRet SM := fun A a l => (l, inr a).
Global Instance SM_bind : MBind SM := fun A B f m l =>
  match m l with
  | (l', inr a) => f a l'
  | (l', inl e) => (l', inl e)
  end.

Definition sm_raise {A} (e : PyExc) : SM A := fun l => (l, inl e).
Definition sm_check (b : bool) (e : PyExc) : SM unit := if b then sm_raise e else mret tt.
Definition sm_modify (f : SyncLocals -> SyncLocals) : SM unit := fun l => (f l, inr tt).
Definition sm_get : SM SyncLocals := fun l => (l, inr l).
Definition sm_lift {A} (r : PyExc + A) : SM A := fun l => (l, r).

(** The per-kind counters of [Results]. *)
Inductive Counter :=
  | CreateS | RenameS | UpdateS | DeleteS
  | CreateE | RenameE | UpdateE | DeleteE
  | DirCreateS | DirCreateE | DirDeleteS | DirDeleteE.

Global Instance Counter_eq_dec : EqDecision Counter.
Proof. solve_decision. Defined.

Definition one_if (c c' : Counter) : Z := if bool_decide (c = c') then 1 else 0.

(** [results.<counter> += 1]. *)
Definition bump (c : Counter) (r : Results) : Results :=
  mkResults (trash_root_r r) (log_file_r r) (success r) (errors r)
    (create_success r + one_if c CreateS) (rename_success r + one_if c RenameS)
    (update_success r + one_if c UpdateS) (delete_success r + one_if c DeleteS)
    (create_error r + one_if c CreateE) (rename_error r + one_if c RenameE)
    (update_error r + one_if c UpdateE) (delete_error r + one_if c DeleteE)
    (byte_diff r)
    (dir_create_success r + one_if c DirCreateS) (dir_create_error r + one_if c DirCreateE)
    (dir_delete_success r + one_if c DirDeleteS) (dir_delete_error r + one_if c DirDeleteE).

Definition add_byte_diff (z : Z) (r : Results) : Results :=
  mkResults (trash_root_r r) (log_file_r r) (success r) (errors r)
    (create_success r) (rename_success r) (update_success r) (delete_success r)
    (create_error r) (rename_error r) (update_error r) (delete_error r)
    (byte_diff r + z)
    (dir_create_success r) (dir_create_error r) (dir_delete_success r) (dir_delete_error r).

(** [results.errors.append(msg)]; the message stands for [_error_summary(e)]. *)
Definition add_error (msg : string) (r : Results) : Results :=
  mkResults (trash_root_r r) (log_file_r r) (success r) (errors r ++ [msg])
    (create_success r) (rename_success r) (update_success r) (delete_success r)
    (create_error r) (rename_error r) (update_error r) (delete_error r)
    (byte_diff r)
    (dir_create_success r) (dir_create_error r) (dir_delete_success r) (dir_delete_error r).

Definition set_success (r : Results) : Results :=
  mkResults (trash_root_r r) (log_file_r r) true (errors r)
    (create_success r) (rename_success r) (update_success r) (delete_success r)
    (create_error r) (rename_error r) (update_error r) (delete_error r)
    (byte_diff r)
    (dir_create_success r) (dir_create_error r) (dir_delete_success r) (dir_delete_error r).

Definition set_paths (t lf : option string) (r : Results) : Results :=
  mkResults t lf (success r) (errors r)
    (create_success r) (rename_success r) (update_success r) (delete_success r)
    (create_error r) (rename_error r) (update_error r) (delete_error r)
    (byte_diff r)
    (dir_create_success r) (dir_create_error r) (dir_delete_success r) (dir_delete_error r).

Definition modify_results (f : Results -> Results) : SM unit :=
  sm_modify (fun l => mkLocals (f (l_results l)) (l_log_file l) (l_tmp_log_file l) (l_handler_file l)).

(** The branch of the loop for each operation kind: its success and error
    counters and whether it adds the byte delta. *)
Definition op_branch (k : string) : option (Counter * Counter * bool) :=
  if bool_decide (k = "-") then Some (DeleteS, DeleteE, true)
  else if bool_decide (k = "+") then Some (CreateS, CreateE, true)
  else if bool_decide (k = "U") then Some (UpdateS, UpdateE, true)
  else if bool_decide (k = "R") then Some (RenameS, RenameE, false)
  else if bool_decide (k = "D+") then Some (DirCreateS, DirCreateE, false)
  else if bool_decide (k = "D-") then Some (DirDeleteS, DirDeleteE, false)
  else None.

Section Sync.
Variable w : World.

(** One turn of the loop: [try: <primitive>; success += 1 except OSError:
  error += 1]; any other exception leaves the loop. *)
Definition run_op (dry_run : bool) (o : Op) : SM unit :=
if dry_run then mret tt
else match op_branch (op_kind o) with
     | None => sm_raise AssertionError
     | Some (cs, ce, adds) =>
         match w_apply w o with
         | None => modify_results (fun r => if adds then add_byte_diff (op_byte_diff o) (bump cs r) else bump cs r)
         | Some (OSError _) => modify_results (fun r => add_error (op_summary o) (bump ce r))
         | Some e => sm_raise e
         end
     end.

(** The [for] loop over the generator: its yields in order, then its
  outcome (an exception it raises ends the loop there). *)
Fixpoint run_events (dry_run : bool) (evs : list Event) : SM unit :=
match evs with
| [] => mret tt
| Yield o :: evs' => run_op dry_run o;; run_events dry_run evs'
| Warn _ :: evs' => run_events dry_run evs'
end.

(** [Path(p).parent] of a path string without trailing or doubled
  separators. *)
Definition path_parent (p : string) : string :=
let l := String.list_ascii_of_string p in
let head := rev (drop_to_sep (rev l)) in
match head with
| [] => "."
| ["/"%char] => "/"
| _ => String.string_of_list_ascii (removelast head)
end.

(** Python's truth value. *)
Definition truthy (x : PyObj) : bool :=
match x with
| PStr s => negb (bool_decide (s = ""))
| PPathLike _ => true
| PInt z => negb (bool_decide (z = 0))
| PBool b => b
| PNone => false
| POther => true
end.

Definition is_str (x : PyObj) : bool := match x with PStr _ => true | _ => false end.

Definition type_checks (a : SyncArgs) : SM unit :=
let quiet := if truthy (a_veryquiet a) then PBool true else a_quiet a in
sm_check (negb (is_str_or_pathlike (a_src a))) TypeError;;
sm_check (negb (is_str_or_pathlike (a_dst a))) TypeError;;
sm_check (negb (is_none (a_trash a)) && negb (is_str_or_pathlike (a_trash a))) TypeError;;
sm_check (negb (is_str (a_filter a))) TypeError;;
sm_check (negb (is_bool (a_ignore_hidden a))) TypeError;;
sm_check (negb (is_none (a_rename_threshold a)) && negb (is_int (a_rename_threshold a))) TypeError;;
sm_check (negb (is_bool (a_metadata_only a))) TypeError;;
sm_check (negb (is_bool (a_dry_run a))) TypeError;;
sm_check (negb (is_none (a_log a)) && negb (is_str_or_pathlike (a_log a))) TypeError;;
sm_check (negb (is_bool quiet)) TypeError;;
sm_check (negb (is_bool (a_veryquiet a))) TypeError.

Definition sm_opt (r : option PyExc) : SM unit :=
match r with Some e => sm_raise e | None => mret tt end.

(** The body of the [try] block of [sync]. *)
Definition sync_body (a : SyncArgs) : SM unit :=
type_checks a;;
let src_root := path_of (a_src a) in
let dst_root := path_of (a_dst a) in
let timestamp := pretty (w_time_ms w) in
let trash_root :=
  if is_none (a_trash a) then None
  else if is_auto (a_trash a) then Some (path_parent dst_root +:+ "/Trash." +:+ timestamp)
  else Some (path_of (a_trash a) +:+ "/" +:+ timestamp) in
let log_file :=
  if is_none (a_log a) then None
  else if is_auto (a_log a) then Some (w_home w +:+ "/py-backup." +:+ timestamp +:+ ".log")
  else Some (path_of (a_log a)) in
let dry_run := truthy (a_dry_run a) in
modify_results (set_paths trash_root log_file);;
sm_modify (fun l => mkLocals (l_results l) log_file (l_tmp_log_file l) (l_handler_file l));;
sm_check (w_exists w src_root && negb (w_is_dir w src_root)) ValueError;;
sm_check (w_exists w dst_root && negb (w_is_dir w dst_root)) ValueError;;
sm_check (bool_decide (w_resolve w src_root = w_resolve w dst_root)) ValueError;;
sm_check (match trash_root with Some t => w_exists w t && negb (w_is_dir w t) | None => false end)
  ValueError;;
sm_check (match log_file with Some f => w_exists w f | None => false end) ValueError;;
(if dry_run then mret tt
 else sm_opt (w_makedirs w dst_root);;
      match trash_root with Some t => sm_opt (w_makedirs w t) | None => mret tt end);;
(match trash_root with
 | Some t =>
     if negb dry_run || w_exists w t then
       dev_t ← sm_lift (w_st_dev w t);
       dev_d ← sm_lift (w_st_dev w dst_root);
       sm_check (negb (bool_decide (dev_t = dev_d))) ValueError
     else mret tt
 | None => mret tt
 end);;
sm_check (negb (is_none (a_rename_threshold a)) && bool_decide (int_of (a_rename_threshold a) < 0))
  ValueError;;
(match log_file with
 | Some _ =>
     tmp ← sm_lift (w_tempfile w);
     sm_modify (fun l => mkLocals (l_results l) (l_log_file l) (Some tmp) true)
 | None => mret tt
 end);;
src_files ← sm_lift (w_scandir w src_root);
dst_files ← sm_lift (w_scandir w dst_root);
let g := _operations src_files dst_files (w_view w) trash_root
           (if is_none (a_rename_threshold a) then None else Some (int_of (a_rename_threshold a)))
           (truthy (a_metadata_only a)) in
run_events dry_run g.1;;
sm_lift g.2;;
modify_results set_success.

(** [sync]: the three [except] clauses (KeyboardInterrupt; TypeError and
  ValueError; Exception) catch every exception of the model and only
  log it. The [finally] block then moves the temporary log onto
  [log_file]; an exception there leaves [sync]. *)
Definition sync (a : SyncArgs) : PyExc + Results :=
let '(l, _) := sync_body a (mkLocals Results_init None None false) in
if l_handler_file l then
  match l_tmp_log_file l, l_log_file l with
  | Some tmp, Some lf =>
      match w_replace w tmp lf with
      | Some k => inl (OSError k)
      | None => inr (l_results l)
      end
  | _, _ => inl AssertionError
  end
else inr (l_results l).
End Sync.

(** ** [Results.err_count], [_last_bytes] and [_human_readable_size] *)

(** [Results.err_count]. *)
Definition err_count (r : Results) : Z :=
  create_error r + rename_error r + update_error r + delete_error r
  + dir_create_error r + dir_delete_error r.

(** The value of one counter of [Results]. *)
Definition counter (c : Counter) (r : Results) : Z :=
  match c with
  | CreateS => create_success r | RenameS => rename_success r
  | UpdateS => update_success r | DeleteS => delete_success r
  | CreateE => create_error r | RenameE => rename_error r
  | UpdateE => update_error r | DeleteE => delete_error r
  | DirCreateS => dir_create_success r | DirCreateE => dir_create_error r
  | DirDeleteS => dir_delete_success r | DirDeleteE => dir_delete_error r
  end.

(** [_last_bytes(file_path, n)] on a file holding [data]: [f.seek(-k,
    os.SEEK_END)] moves to [len(data) - k] (a negative position is an
    [OSError]), and [f.read()] returns the bytes from there to the end. *)
Definition _last_bytes_of (data : list Byte.byte) (n : Z) : PyExc + list Byte.byte :=
  let file_size := Z.of_nat (length data) in
  let bytes_to_read := if n >? file_size then file_size else n in
  let pos := file_size - bytes_to_read in
  if pos <? 0 then inl (OSError OtherOSError) else inr (drop (Z.to_nat pos) data).

(** [_human_readable_size(n)] of an [int]: the [while] loop divides by
    1024 ([//=]) while [n >= 1024] and a larger unit remains; [round] of
    an [int] is the [int] itself. Each turn increments [i], which stops
    at [len(units) - 1], so [fuel] [len(units)] is never exhausted. *)
Definition hrs_units : list string := ["bytes"; "KB"; "MB"; "GB"; "TB"; "PB"].

Fixpoint hrs_loop (fuel : nat) (n : Z) (i : nat) : Z * nat :=
  match fuel with
  | O => (n, i)
  | S f =>
      if (1024 <=? n) && (i <? length hrs_units - 1)%nat then hrs_loop f (n / 1024) (S i)
      else (n, i)
  end.

Definition _human_readable_size (n : Z) : string :=
  let sign := if n <? 0 then "-" else "+" in
  let '(m, i) := hrs_loop (length hrs_units) (Z.abs n) 0 in
  sign +:+ pretty m +:+ " " +:+ default "" (hrs_units !! i).

(** ** Concrete snapshots *)

Module Ex.
(** A snapshot whose real names are the relative paths themselves. *)
Definition fl (r : string) (files : list (string * Metadata)) (dirs : list string) : FileList :=
  mkFileList r (list_to_map files)
    (list_to_map (map (fun pm => (pm.1, pm.1)) files ++ map (fun d => (d, d)) dirs))
    (list_to_set dirs).

(** Every file ends with the same bytes / with different bytes. *)
Definition v_same : FsView := mkFsView (fun _ => inr false) (fun _ => inr "tail").
Definition v_diff : FsView := mkFsView (fun _ => inr false) (fun p => inr p).

(** The two files of the rename pair [old.bin] -> [new.bin] below end alike;
    every other file ends with its own path. *)
Definition v_cand : FsView :=
  mkFsView (fun _ => inr false)
    (fun p => if String.eqb p "S/new.bin" || String.eqb p "D/old.bin" then inr "tail" else inr p).

(** A file renamed from [old.bin] to [new.bin]. *)
Definition S_ren := fl "S" [("new.bin", mkMeta 20000 7)] [].
Definition D_ren := fl "D" [("old.bin", mkMeta 20000 7)] [].

(** Three source-only files share a signature; a fourth file was renamed. *)
Definition S3 := fl "S" [("x1", mkMeta 100 1); ("x2", mkMeta 100 1); ("x3", mkMeta 100 1);
                         ("a", mkMeta 200 2)] [].
Definition D3 := fl "D" [("y", mkMeta 100 1); ("b", mkMeta 200 2)] [].

(** A newer source copy, a newer destination copy, equal copies. *)
Definition S_upd := fl "S" [("new", mkMeta 100 9); ("old", mkMeta 40 1); ("eq", mkMeta 5 5)] ["e1"].
Definition D_upd := fl "D" [("new", mkMeta 40 1); ("old", mkMeta 100 9); ("eq", mkMeta 5 5)] ["e2"].

(** A source file [/s/f] and an empty destination directory [/d]. *)
Definition disk_copy : Disk :=
  mkDisk {[ ["s"; "f"]%string := mkFile "xyz" 420 7 ]} {[ ["s"]%string; ["d"]%string ]}.

(** The fourth system call of the copy, the data write of [copy2] into
    the temporary copy, fails with ENOSPC. *)
Definition fault_enospc (n : nat) : option OSErrKind :=
  if decide (n = 3%nat) then Some NoSpaceError else None.

(** A file [r/a.txt] alone in [r]. *)
Definition disk_case : Disk :=
  mkDisk {[ ["r"; "a.txt"]%string := mkFile "xyz" 420 7 ]} {[ ["r"]%string ]}.


(** [sync("/s", "/d", log="auto")] with default arguments otherwise. *)
Definition args_auto_log : SyncArgs :=
  mkSyncArgs (PStr "/s") (PStr "/d") PNone (PStr "+ **/*/ **/*") (PBool false) (PBool false)
    (PInt 10000) (PBool false) (PBool false) (PStr "auto") (PBool false) (PBool false)
    (PBool false).

(** Two empty directories [/s] and [/d] on one device, a home directory
    [/home/u], and a temporary directory [/tmp] on another file system:
    [os.replace] of the temporary log fails with EXDEV. *)
Definition w_tmpfs : World :=
  mkWorld 1753715578560 "/home/u"
    (fun p => bool_decide (p = "/s" \/ p = "/d"))
    (fun p => bool_decide (p = "/s" \/ p = "/d"))
    (fun p => p) (fun _ => inr 1) (fun _ => None) (inr "/tmp/tmpq1")
    (fun p => inr (mkFileList p ∅ ∅ ∅)) (mkFsView (fun _ => inr false) (fun _ => inr ""))
    (fun _ => None)
    (fun tmp lf => if bool_decide (tmp = "/tmp/tmpq1") then Some CrossDeviceError else None).

(** [sync("/s", "/d")] with default arguments otherwise, and its dry run. *)
Definition args_plain : SyncArgs :=
  mkSyncArgs (PStr "/s") (PStr "/d") PNone (PStr "+ **/*/ **/*") (PBool false) (PBool false)
    (PInt 10000) (PBool false) (PBool false) PNone (PBool false) (PBool false)
    (PBool false).
Definition args_dry : SyncArgs :=
  mkSyncArgs (PStr "/s") (PStr "/d") PNone (PStr "+ **/*/ **/*") (PBool false) (PBool false)
    (PInt 10000) (PBool false) (PBool true) PNone (PBool false) (PBool false)
    (PBool false).

(** [sync(3, "/d")]: a source of the wrong type. *)
Definition args_int_src : SyncArgs :=
  mkSyncArgs (PInt 3) (PStr "/d") PNone (PStr "+ **/*/ **/*") (PBool false) (PBool false)
    (PInt 10000) (PBool false) (PBool false) PNone (PBool false) (PBool false)
    (PBool false).

(** [sync("/s", "/s")]: source and destination are one directory. *)
Definition args_same : SyncArgs :=
  mkSyncArgs (PStr "/s") (PStr "/s") PNone (PStr "+ **/*/ **/*") (PBool false) (PBool false)
    (PInt 10000) (PBool false) (PBool false) PNone (PBool false) (PBool false)
    (PBool false).

(** Two directories [/s] and [/d] on one device; [/s] holds [a] and [b],
    [/d] holds an older [b]. Every update fails with a permission error. *)
Definition w_upd : World :=
  mkWorld 1753715578560 "/home/u"
    (fun p => bool_decide (p = "/s" \/ p = "/d"))
    (fun p => bool_decide (p = "/s" \/ p = "/d"))
    (fun p => p) (fun _ => inr 1) (fun _ => None) (inr "/tmp/tmpq1")
    (fun p => if bool_decide (p = "/s")
              then inr (fl "/s" [("a", mkMeta 3 7); ("b", mkMeta 5 9)] [])
              else inr (fl "/d" [("b", mkMeta 4 2)] []))
    v_diff
    (fun o => if bool_decide (op_kind o = "U") then Some (OSError PermissionError) else None)
    (fun _ _ => None).

(** The events of one run of the loop: a creation, a warning, an update,
    a directory creation. *)
Definition evs_mixed : list Event :=
  [Yield (mkOp "+" (Some "/s/a") (Some "/d/a") 3 "+ a");
   Warn "Working copy is older than backed-up copy, skipping update: c";
   Yield (mkOp "U" (Some "/s/b") (Some "/d/b") 1 "U b");
   Yield (mkOp "D+" None (Some "/d/e") 0 "+ e/")].
End Ex.

(** ** Specification predicates *)

(** [gen_all P m]: every operation yielded by [m] satisfies [P]. *)
Definition gen_all {A} (P : Op -> Prop) (m : Gen A) : Prop := Forall P (yields m.1).

(** Position of an operation kind in the emission order of [_operations]. *)
Definition op_rank (o : Op) : nat :=
  if String.eqb (op_kind o) "D-" then 0
  else if String.eqb (op_kind o) "R" then 1
  else if String.eqb (op_kind o) "-" then 2
  else if String.eqb (op_kind o) "+" then 3
  else if String.eqb (op_kind o) "U" then 4
  else if String.eqb (op_kind o) "D+" then 5
  else 6.

Definition rank_le (a b : Op) : Prop := (op_rank a <= op_rank b)%nat.

(** [m] yields its operations in phase order, none before phase [r]. *)
Definition gen_ordered_from {A} (r : nat) (m : Gen A) : Prop :=
  StronglySorted rank_le (yields m.1) /\ Forall (fun o => (r <= op_rank o)%nat) (yields m.1).

(** The byte delta an operation must carry: a creation the size of its
    source file, an update the source size minus the destination size, a
    deletion to the trash minus the destination size, anything else zero.
    The file is named through its relative path [p] and its real name. *)
Definition delta_ok (src_files dst_files : FileList) (o : Op) : Prop :=
  if String.eqb (op_kind o) "+" then
    exists p real m, real_names src_files !! p = Some real /\
      relpath_to_stats src_files !! p = Some m /\
      op_src o = Some (path_join (root src_files) real) /\ op_byte_diff o = size m
  else if String.eqb (op_kind o) "U" then
    exists p rs rd ms md, real_names src_files !! p = Some rs /\
      real_names dst_files !! p = Some rd /\
      relpath_to_stats src_files !! p = Some ms /\
      relpath_to_stats dst_files !! p = Some md /\
      op_src o = Some (path_join (root src_files) rs) /\
      op_dst o = Some (path_join (root dst_files) rd) /\
      op_byte_diff o = size ms - size md
  else if String.eqb (op_kind o) "-" then
    exists p real m, real_names dst_files !! p = Some real /\
      relpath_to_stats dst_files !! p = Some m /\
      op_src o = Some (path_join (root dst_files) real) /\ op_byte_diff o = - size m
  else op_byte_diff o = 0.

(** What [_reverse_dict] maps a value to: absent when no item carries it,
    its key when exactly one does, [None] when two or more do. *)
Definition rev_spec {K V} `{EqDecision V} (items : list (K * V)) (val : V) : option (option K) :=
  match filter (fun kv => kv.2 = val) items with
  | [] => None
  | [(k, _)] => Some (Some k)
  | _ => Some None
  end.

(** The rename operation from real name [ry] to real name [rx]. *)
Definition rename_op (dst_files : FileList) (ry rx : string) : Op :=
  mkOp "R" (Some (path_join (root dst_files) ry)) (Some (path_join (root dst_files) rx)) 0
       ("R " +:+ ry +:+ " -> " +:+ rx).

(** A rename moves a destination-only file [y] to the name of a source-only
    file [x] of the same signature [m], and [m] is carried by no other
    source-only and no other destination-only file. *)
Definition rename_ok (src_files dst_files : FileList) (o : Op) : Prop :=
  op_kind o = "R" ->
  exists y x ry rx m,
    relpath_to_stats dst_files !! y = Some m /\ relpath_to_stats src_files !! y = None /\
    relpath_to_stats src_files !! x = Some m /\ relpath_to_stats dst_files !! x = None /\
    real_names dst_files !! y = Some ry /\ real_names src_files !! x = Some rx /\
    o = rename_op dst_files ry rx /\
    (forall z, relpath_to_stats src_files !! z = Some m ->
               relpath_to_stats dst_files !! z = None -> z = x) /\
    (forall z, relpath_to_stats dst_files !! z = Some m ->
               relpath_to_stats src_files !! z = None -> z = y).

(** Signature [s] is carried by two different source-only files, or by two
    different destination-only files. *)
Definition ambiguous_sig (src_files dst_files : FileList) (s : Metadata) : Prop :=
  (exists p1 p2, p1 <> p2 /\
     relpath_to_stats src_files !! p1 = Some s /\ relpath_to_stats dst_files !! p1 = None /\
     relpath_to_stats src_files !! p2 = Some s /\ relpath_to_stats dst_files !! p2 = None) \/
  (exists p1 p2, p1 <> p2 /\
     relpath_to_stats dst_files !! p1 = Some s /\ relpath_to_stats src_files !! p1 = None /\
     relpath_to_stats dst_files !! p2 = Some s /\ relpath_to_stats src_files !! p2 = None).

(** The deletion, creation and update operations of one file. *)
Definition delete_op (dst_files : FileList) (tr ry : string) (m : Metadata) : Op :=
  mkOp "-" (Some (path_join (root dst_files) ry)) (Some (path_join tr ry)) (- size m) ("- " +:+ ry).
Definition create_op (src_files dst_files : FileList) (rx : string) (m : Metadata) : Op :=
  mkOp "+" (Some (path_join (root src_files) rx)) (Some (path_join (root dst_files) rx)) (size m)
       ("+ " +:+ rx).
Definition update_op (src_files dst_files : FileList) (rs rd : string) (ms md : Metadata) : Op :=
  mkOp "U" (Some (path_join (root src_files) rs)) (Some (path_join (root dst_files) rd))
       (size ms - size md) ("U " +:+ rd).

Definition older_msg (relpath : string) : string :=
  "Working copy is older than backed-up copy, skipping update: " +:+ relpath.

(** [gen_ev_all P m]: every event (operation or warning) of [m] satisfies [P]. *)
Definition gen_ev_all {A} (P : Event -> Prop) (m : Gen A) : Prop := Forall P m.1.

(** Every warning comes from a path present on both sides whose
    destination copy is strictly newer. *)
Definition warn_ok (src_files dst_files : FileList) (e : Event) : Prop :=
  forall msg, e = Warn msg ->
  exists p ms md, relpath_to_stats src_files !! p = Some ms /\
    relpath_to_stats dst_files !! p = Some md /\ mtime ms < mtime md /\ msg = older_msg p.

(** Every update comes from a path present on both sides whose source copy
    is strictly newer. *)
Definition update_ok (src_files dst_files : FileList) (o : Op) : Prop :=
  op_kind o = "U" ->
  exists p rs rd ms md, real_names src_files !! p = Some rs /\
    real_names dst_files !! p = Some rd /\ relpath_to_stats src_files !! p = Some ms /\
    relpath_to_stats dst_files !! p = Some md /\ mtime md < mtime ms /\
    o = update_op src_files dst_files rs rd ms md.

(** A path leaves the source-only or destination-only list only through
    a rename of a large-enough file whose signature is unique on both
    sides. *)
Definition removed_ok (t : Z) (srev drev : gmap Metadata (option string))
    (st st' : list string * list string) : Prop :=
  (forall z, z ∈ st.2 -> z ∉ st'.2 ->
     exists m x, drev !! m = Some (Some z) /\ srev !! m = Some (Some x) /\ t <= size m) /\
  (forall z, z ∈ st.1 -> z ∉ st'.1 ->
     exists m y, srev !! m = Some (Some z) /\ drev !! m = Some (Some y) /\ t <= size m).


(** No operation was counted and no error recorded. *)
Definition results_clean (r : Results) : Prop :=
  (forall c, counter c r = 0) /\ byte_diff r = 0 /\ errors r = [].

(** [m] keeps [P] of the locals, whatever its outcome. *)
Definition sm_pres (P : SyncLocals -> Prop) {A} (m : SM A) : Prop :=
  forall l, P l -> P (m l).1.

(** The number of operations of kind [k] among the events. *)
Definition count_kind (k : string) (evs : list Event) : Z :=
  Z.of_nat (length (filter (fun o => op_kind o = k) (yields evs))).

(** The byte deltas of the operations the loop adds to [byte_diff]: the
    deletions, creations and updates whose primitive succeeded. *)
Definition applied_delta (w : World) (evs : list Event) : Z :=
  foldr (fun o acc =>
           match op_branch (op_kind o), w_apply w o with
           | Some (_, _, true), None => op_byte_diff o + acc
           | _, _ => acc
           end) 0 (yields evs).


(** A text that is empty or ends in a separator. *)
Definition dir_prefix (s : list ascii) : Prop := s = [] \/ exists s0, s = s0 ++ ["/"%char].

(** Every match of [r] consumes a text that is empty or ends in a separator. *)
Definition consumes_dir_prefix (r : regex) : Prop :=
  forall s k, re_match r s k = true ->
  exists s1 s2, s = s1 ++ s2 /\ k s2 = true /\ dir_prefix s1.

(** ** Reasoning about [Gen] *)

Section GenFacts.
Context {A B : Type}.

Lemma bind_events (m : Gen A) (f : A -> Gen B) :
  (m ≫= f).1 = m.1 ++ match m.2 with inl _ => [] | inr a => (f a).1 end.
Proof. destruct m as [evs [e|a]]; simpl; [by rewrite app_nil_r | done]. Qed.

Lemma bind_outcome (m : Gen A) (f : A -> Gen B) :
  (m ≫= f).2 = match m.2 with inl e => inl e | inr a => (f a).2 end.
Proof. by destruct m as [evs [e|a]]. Qed.

Lemma yields_app (l1 l2 : list Event) : yields (l1 ++ l2) = yields l1 ++ yields l2.
Proof. apply omap_app. Qed.

Lemma warnings_app (l1 l2 : list Event) : warnings (l1 ++ l2) = warnings l1 ++ warnings l2.
Proof. apply omap_app. Qed.

Lemma getitem_inr `{Countable K} {V} (m : gmap K V) k (x : V) :
  (getitem m k).2 = inr x -> m !! k = Some x.
Proof. unfold getitem. destruct (m !! k); simpl; congruence. Qed.
End GenFacts.

Section GenAll.
Context (P : Op -> Prop).

Lemma gen_all_bind {A B} (m : Gen A) (f : A -> Gen B) :
  gen_all P m -> (forall a, m.2 = inr a -> gen_all P (f a)) -> gen_all P (m ≫= f).
Proof.
  unfold gen_all. intros Hm Hf. rewrite bind_events, yields_app.
  apply Forall_app; split; [done|]. destruct m.2 as [e|a] eqn:E; [constructor|by apply Hf].
Qed.

Lemma gen_all_ret {A} (x : A) : gen_all P (mret x).
Proof. constructor. Qed.
Lemma gen_all_raise {A} e : gen_all P (raise (A:=A) e).
Proof. constructor. Qed.
Lemma gen_all_warn msg : gen_all P (warn msg).
Proof. constructor. Qed.
Lemma gen_all_yield o : P o -> gen_all P (yield o).
Proof. intros. unfold gen_all. simpl. by constructor. Qed.
Lemma gen_all_getitem `{Countable K} {V} (m : gmap K V) k : gen_all P (getitem m k).
Proof. unfold getitem. destruct (m !! k); constructor. Qed.
Lemma gen_all_remove x l : gen_all P (remove_or_raise x l).
Proof. unfold remove_or_raise. destruct (list_remove x l); constructor. Qed.
Lemma gen_all_last_bytes v p : gen_all P (_last_bytes v p).
Proof. unfold _last_bytes. destruct (fs_last_bytes v p); constructor. Qed.

Lemma gen_all_fold {S X} (body : S -> X -> Gen S) s l :
  (forall s x, gen_all P (body s x)) -> gen_all P (gen_fold body s l).
Proof.
  intros Hb. revert s. induction l as [|x l IH]; intros s; simpl.
  - apply gen_all_ret.
  - apply gen_all_bind; auto.
Qed.
End GenAll.

Create HintDb gen.
Global Hint Resolve gen_all_ret gen_all_raise gen_all_warn gen_all_getitem
  gen_all_remove gen_all_last_bytes : gen.

(** Split a [gen_all] goal along the program text; the outcome of every
    [getitem] that succeeded is turned into a map lookup. *)
Ltac gen_all_split :=
  repeat match goal with
  | H : (getitem _ _).2 = inr _ |- _ => apply getitem_inr in H
  | |- gen_all _ (mbind _ _) => apply gen_all_bind; [|intros ? ?]
  | |- gen_all _ (gen_fold _ _ _) => apply gen_all_fold; intros ? ?
  | |- gen_all _ (gen_for _ _) => apply gen_all_fold; intros ? ?
  | |- gen_all _ (yield _) => apply gen_all_yield
  | |- gen_all _ (match ?x with _ => _ end) => destruct x eqn:?
  | |- gen_all _ (if ?b then _ else _) => destruct b eqn:?
  | |- gen_all _ _ => solve [eauto with gen]
  end.

(** ** Each phase yields operations of one kind only *)

Section Phases.
Variables (src_files dst_files : FileList) (v : FsView).

Lemma delete_dirs_kind : gen_all (fun o => op_kind o = "D-") (ops_delete_dirs src_files dst_files v).
Proof. unfold ops_delete_dirs. gen_all_split; done. Qed.

Lemma rename_step_kind t mo srev drev st y :
  gen_all (fun o => op_kind o = "R") (rename_step src_files dst_files v t mo srev drev st y).
Proof. unfold rename_step. gen_all_split; done. Qed.

Lemma rename_kind rt mo so do :
  gen_all (fun o => op_kind o = "R") (ops_rename src_files dst_files v rt mo so do).
Proof.
  unfold ops_rename, dict_comp. gen_all_split; auto using rename_step_kind.
Qed.

Lemma delete_kind tr l : gen_all (fun o => op_kind o = "-") (ops_delete dst_files tr l).
Proof. unfold ops_delete. gen_all_split; done. Qed.

Lemma create_kind l : gen_all (fun o => op_kind o = "+") (ops_create src_files dst_files l).
Proof. unfold ops_create. gen_all_split; done. Qed.

Lemma update_kind l : gen_all (fun o => op_kind o = "U") (ops_update src_files dst_files l).
Proof. unfold ops_update. gen_all_split; done. Qed.

Lemma create_dirs_kind : gen_all (fun o => op_kind o = "D+") (ops_create_dirs src_files dst_files).
Proof. unfold ops_create_dirs. gen_all_split; done. Qed.
End Phases.

(** ** Phase order *)

Lemma StronglySorted_app_rank (l1 l2 : list Op) :
  StronglySorted rank_le l1 -> StronglySorted rank_le l2 ->
  Forall (fun a => Forall (rank_le a) l2) l1 -> StronglySorted rank_le (l1 ++ l2).
Proof.
  induction l1 as [|a l1 IH]; simpl; intros H1 H2 H12; [done|].
  inversion H1; subst. inversion H12; subst. constructor; [by apply IH|].
  apply Forall_app; split; done.
Qed.

Lemma ordered_of_kind {A} (m : Gen A) k r :
  gen_all (fun o => op_kind o = k) m ->
  (forall o, op_kind o = k -> op_rank o = r) -> gen_ordered_from r m.
Proof.
  unfold gen_all, gen_ordered_from. intros Hk Hr.
  assert (Hall : Forall (fun o => op_rank o = r) (yields m.1)).
  { eapply Forall_impl; [exact Hk|]. auto. }
  split.
  - clear Hk. induction Hall as [|o l Ho Hl IH]; constructor; [done|].
    eapply Forall_impl; [exact Hl|]. unfold rank_le. intros ? ?; cbv beta in *; lia.
  - eapply Forall_impl; [exact Hall|]. intros ? Hx; cbv beta in *; lia.
Qed.

Lemma ordered_bind {A B} (m : Gen A) (f : A -> Gen B) k r :
  gen_all (fun o => op_kind o = k) m ->
  (forall o, op_kind o = k -> op_rank o = r) ->
  (forall a, gen_ordered_from r (f a)) -> gen_ordered_from r (m ≫= f).
Proof.
  intros Hk Hr Hf. destruct (ordered_of_kind m k r Hk Hr) as [Hs Hge].
  assert (Heq : Forall (fun o => op_rank o = r) (yields m.1)).
  { eapply Forall_impl; [exact Hk|]. auto. }
  unfold gen_ordered_from. rewrite bind_events, yields_app.
  destruct m.2 as [e|a]; simpl.
  - rewrite app_nil_r. done.
  - destruct (Hf a) as [Hs' Hge']. split.
    + apply StronglySorted_app_rank; [done|done|].
      eapply Forall_impl; [exact Heq|]. intros o Ho.
      eapply Forall_impl; [exact Hge'|]. unfold rank_le. intros ? ?; cbv beta in *; lia.
    + apply Forall_app; split; done.
Qed.

Lemma ordered_weaken {A} (m : Gen A) r r' :
  (r' <= r)%nat -> gen_ordered_from r m -> gen_ordered_from r' m.
Proof.
  intros Hle [Hs Hge]. split; [done|]. eapply Forall_impl; [exact Hge|]. intros ? ?; cbv beta in *; lia.
Qed.

Ltac rank_tac := intros ? Ho; unfold op_rank; rewrite Ho; reflexivity.

(** C1. For every pair of snapshots and every parameters, the operations
    [_operations] yields come in phase order: directory deletions ("D-"),
    renames ("R"), deletions to the trash ("-"), creations ("+"), updates
    ("U"), directory creations ("D+"); no operation of a later phase is
    yielded before one of an earlier phase (also when the generator stops
    early on an exception). *)
Theorem operations_phase_order (src_files dst_files : FileList) (v : FsView)
    (trash_root : option string) (rename_threshold : option Z) (metadata_only : bool) :
  StronglySorted rank_le
    (yields (_operations src_files dst_files v trash_root rename_threshold metadata_only).1).
Proof.
  unfold _operations.
  apply (ordered_bind _ _ "D-" 0); [apply delete_dirs_kind|rank_tac|intros _].
  apply (ordered_weaken _ 1); [lia|].
  apply (ordered_bind _ _ "R" 1); [apply rename_kind|rank_tac|intros [so do]].
  apply (ordered_weaken _ 2); [lia|].
  apply (ordered_bind _ _ "-" 2); [apply delete_kind|rank_tac|intros _].
  apply (ordered_weaken _ 3); [lia|].
  apply (ordered_bind _ _ "+" 3); [apply create_kind|rank_tac|intros _].
  apply (ordered_weaken _ 4); [lia|].
  apply (ordered_bind _ _ "U" 4); [apply update_kind|rank_tac|intros _].
  apply (ordered_weaken _ 5); [lia|].
  apply (ordered_of_kind _ "D+" 5); [apply create_dirs_kind|rank_tac].
Qed.

(** ** Byte deltas *)

Ltac delta_tac :=
  unfold delta_ok; simpl; repeat (eexists || split); (eassumption || reflexivity).

(** C9. Every operation [_operations] yields carries the specified byte
    delta: a creation the size of its source file, an update the source
    size minus the destination size (possibly negative), a deletion to the
    trash minus the size of the deleted file, and a rename, a directory
    creation or a directory deletion exactly zero. *)
Theorem operations_byte_deltas (src_files dst_files : FileList) (v : FsView)
    (trash_root : option string) (rename_threshold : option Z) (metadata_only : bool) :
  Forall (delta_ok src_files dst_files)
    (yields (_operations src_files dst_files v trash_root rename_threshold metadata_only).1).
Proof.
  change (gen_all (delta_ok src_files dst_files)
            (_operations src_files dst_files v trash_root rename_threshold metadata_only)).
  unfold _operations, ops_delete_dirs, ops_rename, rename_step, ops_delete, ops_create,
    ops_update, ops_create_dirs, dict_comp, gen_for.
  gen_all_split; delta_tac.
Qed.

(** ** [_reverse_dict] and the rename loop *)

Lemma reverse_dict_spec {K V} `{Countable V} (items : list (K * V)) (val : V) :
  _reverse_dict items !! val = rev_spec items val.
Proof.
  induction items as [|[k w] items IH] using rev_ind.
  - unfold rev_spec, _reverse_dict. simpl. apply lookup_empty.
  - unfold _reverse_dict in *. rewrite foldl_app. simpl.
    unfold rev_spec in *. rewrite filter_app. simpl.
    destruct (decide (w = val)) as [->|Hne].
    + rewrite filter_cons_True by done. simpl.
      destruct (decide (is_Some _)) as [Hs|Hs].
      * rewrite lookup_insert_eq. rewrite IH in Hs.
        destruct (filter _ items) as [|[k1 w1] [|? ?]]; simpl; [by destruct Hs|done|done].
      * rewrite lookup_insert_eq. rewrite IH in Hs.
        destruct (filter _ items) as [|[k1 w1] [|? ?]]; simpl; [done| |];
          exfalso; apply Hs; eauto.
    + rewrite filter_cons_False by done. rewrite app_nil_r.
      destruct (decide (is_Some _)); rewrite lookup_insert_ne by done; apply IH.
Qed.

Lemma reverse_dict_unique {K V} `{Countable V} (items : list (K * V)) val k :
  _reverse_dict items !! val = Some (Some k) ->
  (k, val) ∈ items /\ forall k', (k', val) ∈ items -> k' = k.
Proof.
  rewrite reverse_dict_spec. unfold rev_spec.
  destruct (filter _ items) as [|[k1 w1] [|? ?]] eqn:E; try done.
  intros [= ->].
  assert (Hin : forall kv, kv ∈ items -> kv.2 = val -> kv = (k, w1)).
  { intros kv Hkv Hv. assert (kv ∈ filter (fun kv => kv.2 = val) items) as Hf
      by (apply list_elem_of_filter; done).
    rewrite E in Hf. by apply list_elem_of_singleton in Hf. }
  assert ((k, w1) ∈ filter (fun kv => kv.2 = val) items) as Hk by (rewrite E; left).
  apply list_elem_of_filter in Hk as [Hw Hk]. simpl in Hw. subst w1.
  split; [done|]. intros k' Hk'. by specialize (Hin (k', val) Hk' eq_refl) as [= ->].
Qed.

(** The items [dict_comp] builds are the listed paths with their stats. *)
Lemma dict_comp_items (stats : gmap string Metadata) (paths : list string) items :
  (dict_comp stats paths).2 = inr items ->
  forall k w, (k, w) ∈ items <-> k ∈ paths /\ stats !! k = Some w.
Proof.
  unfold dict_comp.
  assert (Hgen : forall acc, (gen_fold (fun acc p => m ← getitem stats p; mret (acc ++ [(p, m)]))
                              acc paths).2 = inr items ->
           forall k w, (k, w) ∈ items <-> (k, w) ∈ acc \/ (k ∈ paths /\ stats !! k = Some w)).
  { induction paths as [|p paths IH]; intros acc Hr k w; simpl in Hr.
    - injection Hr as <-. split; [by left|]. intros [?|[Hk _]]; [done|inversion Hk].
    - rewrite bind_outcome in Hr. unfold getitem in Hr.
      destruct (stats !! p) as [m|] eqn:Ep; simpl in Hr; [|discriminate].
      rewrite (IH _ Hr k w). rewrite elem_of_app, list_elem_of_singleton, elem_of_cons.
      split.
      + intros [[?|[= -> ->]]|[? ?]]; auto.
      + intros [?|[[->|?] ?]]; auto. left; right. congruence. }
  intros Hr k w. rewrite (Hgen [] Hr k w). split; [intros [Hk|?]; [inversion Hk|done]|auto].
Qed.

Lemma sorted_str_elem (l : list string) x : x ∈ sorted_str l <-> x ∈ l.
Proof. unfold sorted_str. by rewrite (merge_sort_Permutation str_le l). Qed.

Lemma src_only_elem (src_files dst_files : FileList) p :
  p ∈ src_only_relpaths src_files dst_files <->
  is_Some (relpath_to_stats src_files !! p) /\ relpath_to_stats dst_files !! p = None.
Proof.
  unfold src_only_relpaths. rewrite sorted_str_elem, elem_of_elements, elem_of_difference.
  by rewrite elem_of_dom, not_elem_of_dom.
Qed.

Lemma dst_only_elem (src_files dst_files : FileList) p :
  p ∈ dst_only_relpaths src_files dst_files <->
  is_Some (relpath_to_stats dst_files !! p) /\ relpath_to_stats src_files !! p = None.
Proof.
  unfold dst_only_relpaths. rewrite sorted_str_elem, elem_of_elements, elem_of_difference.
  by rewrite elem_of_dom, not_elem_of_dom.
Qed.

Lemma both_elem (src_files dst_files : FileList) p :
  p ∈ both_relpaths src_files dst_files <->
  is_Some (relpath_to_stats src_files !! p) /\ is_Some (relpath_to_stats dst_files !! p).
Proof.
  unfold both_relpaths. rewrite sorted_str_elem, elem_of_elements, elem_of_intersection.
  by rewrite !elem_of_dom.
Qed.

Section RenameOk.
Variables (src_files dst_files : FileList) (v : FsView).

Lemma rename_step_ok src_items dst_items t mo st y :
  (forall k w, (k, w) ∈ src_items <->
     k ∈ src_only_relpaths src_files dst_files /\ relpath_to_stats src_files !! k = Some w) ->
  (forall k w, (k, w) ∈ dst_items <->
     k ∈ dst_only_relpaths src_files dst_files /\ relpath_to_stats dst_files !! k = Some w) ->
  gen_all (rename_ok src_files dst_files)
    (rename_step src_files dst_files v t mo (_reverse_dict src_items) (_reverse_dict dst_items) st y).
Proof.
  intros Hsi Hdi. unfold rename_step. gen_all_split. intros _.
  match goal with
  | Hs : _reverse_dict src_items !! ?m = Some (Some ?x),
    Hd : _reverse_dict dst_items !! ?m = Some (Some ?y),
    Hry : real_names dst_files !! ?y = Some ?ry,
    Hrx : real_names src_files !! ?x = Some ?rx |- _ =>
      apply reverse_dict_unique in Hs as [Hxin Hxu];
      apply reverse_dict_unique in Hd as [Hyin Hyu];
      exists y, x, ry, rx, m
  end.
  apply Hsi in Hxin as [Hx Hxm]. apply Hdi in Hyin as [Hy Hym].
  apply src_only_elem in Hx as [_ Hx]. apply dst_only_elem in Hy as [_ Hy].
  repeat split; try done.
  - intros z Hz Hz'. apply Hxu, Hsi. split; [|done]. apply src_only_elem. eauto.
  - intros z Hz Hz'. apply Hyu, Hdi. split; [|done]. apply dst_only_elem. eauto.
Qed.

Lemma operations_rename_ok trash_root rename_threshold metadata_only :
  gen_all (rename_ok src_files dst_files)
    (_operations src_files dst_files v trash_root rename_threshold metadata_only).
Proof.
  unfold _operations, ops_delete_dirs, ops_rename, ops_delete, ops_create,
    ops_update, ops_create_dirs, gen_for.
  gen_all_split; try (intros Hk; discriminate).
  - unfold dict_comp. gen_all_split.
  - unfold dict_comp. gen_all_split.
  - eapply rename_step_ok; eapply dict_comp_items; eassumption.
Qed.
End RenameOk.

(** C2. Rename ambiguity is total: when a signature (size, mtime) is shared
    by two or more source-only files, or by two or more destination-only
    files, every rename [_operations] yields moves a destination-only file
    [y] to the name of a source-only file [x] whose common signature is a
    different one; so no file carrying the ambiguous signature (in
    particular none of three files sharing it within one root) takes part
    in a rename. *)
Theorem rename_ambiguity_total (src_files dst_files : FileList) (v : FsView)
    (trash_root : option string) (rename_threshold : option Z) (metadata_only : bool)
    (s : Metadata) :
  ambiguous_sig src_files dst_files s ->
  forall o, o ∈ yields (_operations src_files dst_files v trash_root rename_threshold metadata_only).1 ->
  op_kind o = "R" ->
  exists y x ry rx m,
    relpath_to_stats dst_files !! y = Some m /\ relpath_to_stats src_files !! x = Some m /\
    real_names dst_files !! y = Some ry /\ real_names src_files !! x = Some rx /\
    o = rename_op dst_files ry rx /\ m <> s.
Proof.
  intros Hamb o Ho Hk.
  pose proof (operations_rename_ok src_files dst_files v trash_root rename_threshold metadata_only)
    as Hall.
  unfold gen_all in Hall. rewrite Forall_forall in Hall.
  destruct (Hall o Ho Hk) as (y & x & ry & rx & m & Hy & Hy' & Hx & Hx' & Hry & Hrx & Ho' & Hxu & Hyu).
  exists y, x, ry, rx, m. repeat split; try done.
  intros ->. destruct Hamb as [(p1 & p2 & Hne & H1 & H1' & H2 & H2')|(p1 & p2 & Hne & H1 & H1' & H2 & H2')].
  - apply Hne. rewrite (Hxu p1), (Hxu p2); done.
  - apply Hne. rewrite (Hyu p1), (Hyu p2); done.
Qed.

(** ** Runs that reach the end of the generator *)

Lemma bind_complete {A B} (m : Gen A) (f : A -> Gen B) b :
  (m ≫= f).2 = inr b ->
  exists a, m.2 = inr a /\ (f a).2 = inr b /\ (m ≫= f).1 = m.1 ++ (f a).1.
Proof.
  rewrite bind_outcome, bind_events. destruct m.2 as [e|a]; [discriminate|]. eauto.
Qed.

Lemma fold_complete {S X} (body : S -> X -> Gen S) s l r :
  (gen_fold body s l).2 = inr r ->
  forall x, x ∈ l -> exists s' r', (body s' x).2 = inr r' /\
    forall e, e ∈ (body s' x).1 -> e ∈ (gen_fold body s l).1.
Proof.
  revert s. induction l as [|y l IH]; intros s Hr x Hx; [inversion Hx|].
  simpl in *. apply bind_complete in Hr as (a & Ha & Hf & He). rewrite He.
  apply elem_of_cons in Hx as [->|Hx].
  - exists s, a. split; [done|]. intros e Hin. apply elem_of_app. by left.
  - destruct (IH a Hf x Hx) as (s' & r' & H1 & H2). exists s', r'. split; [done|].
    intros e Hin. apply elem_of_app. right. by apply H2.
Qed.

Lemma operations_complete (src_files dst_files : FileList) (v : FsView)
    (trash_root : option string) (rename_threshold : option Z) (metadata_only : bool) :
  (_operations src_files dst_files v trash_root rename_threshold metadata_only).2 = inr tt ->
  exists so do,
    (ops_delete_dirs src_files dst_files v).2 = inr tt /\
    (ops_rename src_files dst_files v rename_threshold metadata_only
       (src_only_relpaths src_files dst_files) (dst_only_relpaths src_files dst_files)).2
      = inr (so, do) /\
    (ops_delete dst_files trash_root do).2 = inr tt /\
    (ops_create src_files dst_files so).2 = inr tt /\
    (ops_update src_files dst_files (both_relpaths src_files dst_files)).2 = inr tt /\
    (ops_create_dirs src_files dst_files).2 = inr tt /\
    (_operations src_files dst_files v trash_root rename_threshold metadata_only).1 =
      (ops_delete_dirs src_files dst_files v).1 ++
      (ops_rename src_files dst_files v rename_threshold metadata_only
         (src_only_relpaths src_files dst_files) (dst_only_relpaths src_files dst_files)).1 ++
      (ops_delete dst_files trash_root do).1 ++ (ops_create src_files dst_files so).1 ++
      (ops_update src_files dst_files (both_relpaths src_files dst_files)).1 ++
      (ops_create_dirs src_files dst_files).1.
Proof.
  unfold _operations. intros H.
  apply bind_complete in H as ([] & H1 & H & ->).
  apply bind_complete in H as ([so do] & H2 & H & ->).
  apply bind_complete in H as ([] & H3 & H & ->).
  apply bind_complete in H as ([] & H4 & H & ->).
  apply bind_complete in H as ([] & H5 & H6 & ->).
  exists so, do. repeat split; done.
Qed.

Lemma list_remove_elem x l l' :
  list_remove x l = Some l' -> forall z, z ∈ l -> z ∉ l' -> z = x.
Proof.
  revert l'. induction l as [|y l IH]; intros l' Hr z Hz Hn; simpl in Hr; [discriminate|].
  destruct (String.eqb x y) eqn:E.
  - apply String.eqb_eq in E. subst. injection Hr as <-.
    apply elem_of_cons in Hz as [->|Hz]; [done|contradiction].
  - destruct (list_remove x l) as [l''|] eqn:E'; [|discriminate]. injection Hr as <-.
    apply elem_of_cons in Hz as [->|Hz].
    + exfalso. apply Hn. left.
    + apply (IH l''); [done|done|]. intros Hin. apply Hn. by right.
Qed.

Section RenameLoop.
Variables (src_files dst_files : FileList) (v : FsView) (t : Z) (mo : bool)
  (srev drev : gmap Metadata (option string)).

Lemma rename_step_removed st y st' :
  (rename_step src_files dst_files v t mo srev drev st y).2 = inr st' -> removed_ok t srev drev st st'.
Proof.
  unfold rename_step, getitem, remove_or_raise, _last_bytes. destruct st as [so do].
  intros H. simpl in H.
  repeat (case_match; simpl in H; try discriminate);
    try (injection H as <-; split; intros z Hz Hz'; contradiction).
  all: injection H as <-; subst; match goal with
  | Hs : srev !! ?m = Some (Some ?x), Hd : drev !! ?m = Some (Some ?y),
    R1 : list_remove ?x _ = Some _, R2 : list_remove ?y _ = Some _,
    Hlt : ¬ (size ?m < t) |- _ =>
      split; intros z Hz Hz'; simpl in *;
      [ rewrite (list_remove_elem _ _ _ R2 z Hz Hz'); exists m, x
      | rewrite (list_remove_elem _ _ _ R1 z Hz Hz'); exists m, y ];
      repeat split; try done; lia
  end.
Qed.
End RenameLoop.

Section RenameLoop2.
Variables (src_files dst_files : FileList) (v : FsView) (t : Z) (mo : bool)
  (srev drev : gmap Metadata (option string)).

Lemma rename_loop_removed l st st' :
  (gen_fold (rename_step src_files dst_files v t mo srev drev) st l).2 = inr st' ->
  removed_ok t srev drev st st'.
Proof.
  revert st. induction l as [|y l IH]; intros st H; simpl in H.
  - injection H as <-. split; intros z Hz Hz'; contradiction.
  - apply bind_complete in H as (a & Ha & Hf & _).
    destruct (rename_step_removed src_files dst_files v t mo srev drev _ _ _ Ha) as [Hd1 Hs1].
    destruct (IH a Hf) as [Hd2 Hs2]. split; intros z Hz Hz'.
    + destruct (decide (z ∈ a.2)); [by apply Hd2|by apply Hd1].
    + destruct (decide (z ∈ a.1)); [by apply Hs2|by apply Hs1].
Qed.

Lemma rename_loop_emits l st st' y x m ry rx :
  (gen_fold (rename_step src_files dst_files v t true srev drev) st l).2 = inr st' ->
  y ∈ l -> relpath_to_stats dst_files !! y = Some m -> t <= size m ->
  srev !! m = Some (Some x) -> drev !! m = Some (Some y) ->
  real_names dst_files !! y = Some ry -> real_names src_files !! x = Some rx ->
  Yield (rename_op dst_files ry rx) ∈
    (gen_fold (rename_step src_files dst_files v t true srev drev) st l).1.
Proof.
  intros H Hy Hm Ht Hs Hd Hry Hrx.
  destruct (fold_complete _ _ _ _ H y Hy) as ([so do] & r & Hr & Hin). apply Hin.
  revert Hr. unfold rename_step, getitem, remove_or_raise. simpl.
  rewrite Hm. simpl. destruct (decide (size m < t)); [lia|]. simpl.
  rewrite Hs, Hd. simpl.
  destruct (list_remove x so); simpl; [|discriminate].
  destruct (list_remove y do); simpl; [|discriminate].
  rewrite Hry, Hrx. simpl. intros _. left.
Qed.
End RenameLoop2.

(** [dict_comp] lists the paths, in order, each with its stats. *)
Lemma dict_comp_keys (stats : gmap string Metadata) (paths : list string) items :
  (dict_comp stats paths).2 = inr items -> map fst items = paths.
Proof.
  unfold dict_comp.
  assert (Hgen : forall acc, (gen_fold (fun acc p => m ← getitem stats p; mret (acc ++ [(p, m)]))
                              acc paths).2 = inr items -> map fst items = map fst acc ++ paths).
  { induction paths as [|p paths IH]; intros acc Hr; simpl in Hr.
    - injection Hr as <-. by rewrite app_nil_r.
    - rewrite bind_outcome in Hr. unfold getitem in Hr.
      destruct (stats !! p) as [m|] eqn:Ep; simpl in Hr; [|discriminate].
      rewrite (IH _ Hr), map_app. simpl. by rewrite <- app_assoc. }
  intros Hr. by rewrite (Hgen [] Hr).
Qed.

(** Converse of [reverse_dict_unique] for items with distinct keys. *)
Lemma reverse_dict_of_unique {K V} `{Countable V} (items : list (K * V)) val k :
  NoDup (map fst items) -> (k, val) ∈ items ->
  (forall k', (k', val) ∈ items -> k' = k) ->
  _reverse_dict items !! val = Some (Some k).
Proof.
  intros Hnd Hin Hu. rewrite reverse_dict_spec. unfold rev_spec.
  assert (Hall : forall kv, kv ∈ filter (fun kv => kv.2 = val) items -> kv = (k, val)).
  { intros [k' w] Hkv. apply list_elem_of_filter in Hkv as [Hw Hkv]. simpl in Hw. subst w.
    by rewrite (Hu k' Hkv). }
  assert (Hnd' : NoDup (filter (fun kv => kv.2 = val) items)).
  { apply NoDup_filter. by apply NoDup_fmap_1 in Hnd. }
  assert (Hk : (k, val) ∈ filter (fun kv => kv.2 = val) items)
    by (apply list_elem_of_filter; done).
  destruct (filter _ items) as [|a [|b l]] eqn:E.
  - inversion Hk.
  - apply list_elem_of_singleton in Hk. by subst.
  - exfalso. inversion Hnd' as [|? ? Hab]; subst. apply Hab.
    rewrite (Hall a (list_elem_of_here _ _)), (Hall b (list_elem_of_further _ _ _ (list_elem_of_here _ _))).
    left.
Qed.

Lemma sorted_str_NoDup (X : gset string) : NoDup (sorted_str (elements X)).
Proof.
  unfold sorted_str. rewrite (merge_sort_Permutation str_le (elements X)). apply NoDup_elements.
Qed.

Lemma ops_delete_emits (dst_files : FileList) tr l y ry m :
  (ops_delete dst_files (Some tr) l).2 = inr tt -> y ∈ l ->
  real_names dst_files !! y = Some ry -> relpath_to_stats dst_files !! y = Some m ->
  Yield (delete_op dst_files tr ry m) ∈ (ops_delete dst_files (Some tr) l).1.
Proof.
  intros H Hy Hr Hm. destruct (fold_complete _ _ _ _ H y Hy) as (s & r & _ & Hin). apply Hin.
  unfold getitem. rewrite Hr, Hm. left.
Qed.

Lemma ops_create_emits (src_files dst_files : FileList) l x rx m :
  (ops_create src_files dst_files l).2 = inr tt -> x ∈ l ->
  real_names src_files !! x = Some rx -> relpath_to_stats src_files !! x = Some m ->
  Yield (create_op src_files dst_files rx m) ∈ (ops_create src_files dst_files l).1.
Proof.
  intros H Hx Hr Hm. destruct (fold_complete _ _ _ _ H x Hx) as (s & r & _ & Hin). apply Hin.
  unfold getitem. rewrite Hr, Hm. left.
Qed.

(** C8. The rename size threshold is inclusive. Without a threshold
    ([None]) no rename is yielded. A destination-only file smaller than the
    threshold is never renamed: with a trash configured, a completed run
    moves it to the trash and creates the source-only file of the same
    signature independently. A destination-only file whose size reaches the
    threshold (in particular equals it) is eligible: when its signature is
    carried by no other destination-only file and by exactly one source-only
    file, and contents are not compared, it is renamed to that file. *)
Theorem rename_threshold_inclusive (src_files dst_files : FileList) (v : FsView)
    (trash_root : option string) (metadata_only : bool) :
  (forall o, o ∈ yields (_operations src_files dst_files v trash_root None metadata_only).1 ->
     op_kind o <> "R") /\
  (forall t tr y x m ry rx,
     trash_root = Some tr -> size m < t ->
     relpath_to_stats dst_files !! y = Some m -> relpath_to_stats src_files !! y = None ->
     relpath_to_stats src_files !! x = Some m -> relpath_to_stats dst_files !! x = None ->
     real_names dst_files !! y = Some ry -> real_names src_files !! x = Some rx ->
     (_operations src_files dst_files v trash_root (Some t) metadata_only).2 = inr tt ->
     Yield (delete_op dst_files tr ry m)
       ∈ (_operations src_files dst_files v trash_root (Some t) metadata_only).1 /\
     Yield (create_op src_files dst_files rx m)
       ∈ (_operations src_files dst_files v trash_root (Some t) metadata_only).1) /\
  (forall t y x m ry rx,
     t <= size m ->
     relpath_to_stats dst_files !! y = Some m -> relpath_to_stats src_files !! y = None ->
     relpath_to_stats src_files !! x = Some m -> relpath_to_stats dst_files !! x = None ->
     (forall z, relpath_to_stats dst_files !! z = Some m ->
                relpath_to_stats src_files !! z = None -> z = y) ->
     (forall z, relpath_to_stats src_files !! z = Some m ->
                relpath_to_stats dst_files !! z = None -> z = x) ->
     real_names dst_files !! y = Some ry -> real_names src_files !! x = Some rx ->
     (_operations src_files dst_files v trash_root (Some t) true).2 = inr tt ->
     Yield (rename_op dst_files ry rx)
       ∈ (_operations src_files dst_files v trash_root (Some t) true).1).
Proof.
  split; [|split].
  - intros o Ho.
    assert (Hg : gen_all (fun o => op_kind o <> "R")
                   (_operations src_files dst_files v trash_root None metadata_only)).
    { unfold _operations, ops_delete_dirs, ops_delete, ops_create, ops_update,
        ops_create_dirs, gen_for. simpl (ops_rename _ _ _ None _ _ _).
      gen_all_split; discriminate. }
    unfold gen_all in Hg. rewrite Forall_forall in Hg. by apply Hg.
  - intros t tr y x m ry rx -> Hlt Hy Hy' Hx Hx' Hry Hrx Hc.
    destruct (operations_complete _ _ _ _ _ _ Hc)
      as (so & do & _ & Hren & Hdel & Hcre & _ & _ & ->).
    unfold ops_rename in Hren.
    apply bind_complete in Hren as (si & Hsi & Hren & _).
    apply bind_complete in Hren as (di & Hdi & Hren & _).
    destruct (rename_loop_removed _ _ _ _ _ _ _ _ _ _ Hren) as [Hrd Hrs]. simpl in Hrd, Hrs.
    assert (Hyd : y ∈ do).
    { destruct (decide (y ∈ do)) as [|Hn]; [done|].
      destruct (Hrd y) as (m' & x' & Hd & _ & Hle); [apply dst_only_elem; eauto|done|].
      apply reverse_dict_unique in Hd as [Hd _].
      apply (dict_comp_items _ _ _ Hdi) in Hd as [_ Hd].
      assert (m' = m) as -> by congruence. lia. }
    assert (Hxs : x ∈ so).
    { destruct (decide (x ∈ so)) as [|Hn]; [done|].
      destruct (Hrs x) as (m' & y' & Hs & _ & Hle); [apply src_only_elem; eauto|done|].
      apply reverse_dict_unique in Hs as [Hs _].
      apply (dict_comp_items _ _ _ Hsi) in Hs as [_ Hs].
      assert (m' = m) as -> by congruence. lia. }
    split; rewrite !elem_of_app; right; right; [left|right; left].
    + by apply (ops_delete_emits _ _ _ y).
    + by apply (ops_create_emits _ _ _ x).
  - intros t y x m ry rx Hle Hy Hy' Hx Hx' Huy Hux Hry Hrx Hc.
    destruct (operations_complete _ _ _ _ _ _ Hc)
      as (so & do & _ & Hren & _ & _ & _ & _ & ->).
    rewrite !elem_of_app. right; left.
    unfold ops_rename in Hren |- *.
    apply bind_complete in Hren as (si & Hsi & Hren & ->).
    apply bind_complete in Hren as (di & Hdi & Hren & ->).
    rewrite !elem_of_app. right; right.
    eapply rename_loop_emits; [exact Hren|apply dst_only_elem; eauto|done|done| | |done|done].
    + apply reverse_dict_of_unique.
      * rewrite (dict_comp_keys _ _ _ Hsi). apply sorted_str_NoDup.
      * apply (dict_comp_items _ _ _ Hsi). split; [apply src_only_elem; eauto|done].
      * intros k' Hk'. apply (dict_comp_items _ _ _ Hsi) in Hk' as [Hk' Hm].
        apply src_only_elem in Hk' as [_ Hk']. by apply Hux.
    + apply reverse_dict_of_unique.
      * rewrite (dict_comp_keys _ _ _ Hdi). apply sorted_str_NoDup.
      * apply (dict_comp_items _ _ _ Hdi). split; [apply dst_only_elem; eauto|done].
      * intros k' Hk'. apply (dict_comp_items _ _ _ Hdi) in Hk' as [Hk' Hm].
        apply dst_only_elem in Hk' as [_ Hk']. by apply Huy.
Qed.

(** ** Updates and the "destination is newer" warning *)

Section GenEvAll.
Context (P : Event -> Prop).

Lemma gen_ev_all_bind {A B} (m : Gen A) (f : A -> Gen B) :
  gen_ev_all P m -> (forall a, m.2 = inr a -> gen_ev_all P (f a)) -> gen_ev_all P (m ≫= f).
Proof.
  unfold gen_ev_all. intros Hm Hf. rewrite bind_events.
  apply Forall_app; split; [done|]. destruct m.2 as [e|a] eqn:E; [constructor|by apply Hf].
Qed.
Lemma gen_ev_all_ret {A} (x : A) : gen_ev_all P (mret x).
Proof. constructor. Qed.
Lemma gen_ev_all_raise {A} e : gen_ev_all P (raise (A:=A) e).
Proof. constructor. Qed.
Lemma gen_ev_all_warn msg : P (Warn msg) -> gen_ev_all P (warn msg).
Proof. intros. by repeat constructor. Qed.
Lemma gen_ev_all_yield o : P (Yield o) -> gen_ev_all P (yield o).
Proof. intros. by repeat constructor. Qed.
Lemma gen_ev_all_getitem `{Countable K} {V} (m : gmap K V) k : gen_ev_all P (getitem m k).
Proof. unfold getitem. destruct (m !! k); constructor. Qed.
Lemma gen_ev_all_remove x l : gen_ev_all P (remove_or_raise x l).
Proof. unfold remove_or_raise. destruct (list_remove x l); constructor. Qed.
Lemma gen_ev_all_last_bytes v p : gen_ev_all P (_last_bytes v p).
Proof. unfold _last_bytes. destruct (fs_last_bytes v p); constructor. Qed.
Lemma gen_ev_all_fold {S X} (body : S -> X -> Gen S) s l :
  (forall s x, gen_ev_all P (body s x)) -> gen_ev_all P (gen_fold body s l).
Proof.
  intros Hb. revert s. induction l as [|x l IH]; intros s; simpl.
  - apply gen_ev_all_ret.
  - apply gen_ev_all_bind; auto.
Qed.
End GenEvAll.

Global Hint Resolve gen_ev_all_ret gen_ev_all_raise gen_ev_all_getitem
  gen_ev_all_remove gen_ev_all_last_bytes : gen.

Ltac gen_ev_all_split :=
  repeat match goal with
  | H : (getitem _ _).2 = inr _ |- _ => apply getitem_inr in H
  | |- gen_ev_all _ (mbind _ _) => apply gen_ev_all_bind; [|intros ? ?]
  | |- gen_ev_all _ (gen_fold _ _ _) => apply gen_ev_all_fold; intros ? ?
  | |- gen_ev_all _ (gen_for _ _) => apply gen_ev_all_fold; intros ? ?
  | |- gen_ev_all _ (yield _) => apply gen_ev_all_yield
  | |- gen_ev_all _ (warn _) => apply gen_ev_all_warn
  | |- gen_ev_all _ (match ?x with _ => _ end) => destruct x eqn:?
  | |- gen_ev_all _ (if ?b then _ else _) => destruct b eqn:?
  | |- gen_ev_all _ _ => solve [eauto with gen]
  end.

Lemma string_app_cancel_l (s a b : string) : s +:+ a = s +:+ b -> a = b.
Proof. induction s as [|c s IH]; simpl; [done|]. intros [= H]. by apply IH. Qed.

Lemma operations_warn_ok (src_files dst_files : FileList) (v : FsView)
    (trash_root : option string) (rename_threshold : option Z) (metadata_only : bool) :
  gen_ev_all (warn_ok src_files dst_files)
    (_operations src_files dst_files v trash_root rename_threshold metadata_only).
Proof.
  unfold _operations, ops_delete_dirs, ops_rename, rename_step, ops_delete, ops_create,
    ops_update, ops_create_dirs, dict_comp, gen_for.
  gen_ev_all_split; try (intros ? Hm; discriminate).
  intros ? [= <-]. do 3 eexists. repeat split; (eassumption || reflexivity).
Qed.

Lemma operations_update_ok (src_files dst_files : FileList) (v : FsView)
    (trash_root : option string) (rename_threshold : option Z) (metadata_only : bool) :
  gen_all (update_ok src_files dst_files)
    (_operations src_files dst_files v trash_root rename_threshold metadata_only).
Proof.
  unfold _operations, ops_delete_dirs, ops_rename, rename_step, ops_delete, ops_create,
    ops_update, ops_create_dirs, dict_comp, gen_for.
  gen_all_split; try (intros Hk; discriminate).
  intros _. do 5 eexists. repeat split; (eassumption || reflexivity).
Qed.

(** C7. For the paths present in both snapshots, in a run of [_operations]
    that reaches its end: when the source modification time is strictly
    greater an update of that path is yielded; the warning for the path is
    logged exactly when the destination's modification time is strictly
    greater; and every update yielded comes from a path present on both
    sides whose source copy is strictly newer. So equal times give neither
    an update nor a warning, and a newer destination gives only the
    warning. *)
Theorem update_by_mtime (src_files dst_files : FileList) (v : FsView)
    (trash_root : option string) (rename_threshold : option Z) (metadata_only : bool) :
  (_operations src_files dst_files v trash_root rename_threshold metadata_only).2 = inr tt ->
  (forall p rs rd ms md,
     real_names src_files !! p = Some rs -> real_names dst_files !! p = Some rd ->
     relpath_to_stats src_files !! p = Some ms -> relpath_to_stats dst_files !! p = Some md ->
     (mtime md < mtime ms ->
        Yield (update_op src_files dst_files rs rd ms md)
          ∈ (_operations src_files dst_files v trash_root rename_threshold metadata_only).1) /\
     (Warn (older_msg p)
        ∈ (_operations src_files dst_files v trash_root rename_threshold metadata_only).1
      <-> mtime ms < mtime md)) /\
  (forall o, o ∈ yields (_operations src_files dst_files v trash_root rename_threshold metadata_only).1 ->
     op_kind o = "U" ->
     exists p rs rd ms md, real_names src_files !! p = Some rs /\
       real_names dst_files !! p = Some rd /\ relpath_to_stats src_files !! p = Some ms /\
       relpath_to_stats dst_files !! p = Some md /\ mtime md < mtime ms /\
       o = update_op src_files dst_files rs rd ms md).
Proof.
  intros Hc. split.
  - intros p rs rd ms md Hrs Hrd Hms Hmd.
    destruct (operations_complete _ _ _ _ _ _ Hc) as (so & do & _ & _ & _ & _ & Hup & _ & He).
    assert (Hp : p ∈ both_relpaths src_files dst_files) by (apply both_elem; eauto).
    destruct (fold_complete _ _ _ _ Hup p Hp) as (s & r & _ & Hin).
    assert (Hsub : forall e, e ∈ (ops_update src_files dst_files (both_relpaths src_files dst_files)).1 ->
              e ∈ (_operations src_files dst_files v trash_root rename_threshold metadata_only).1).
    { intros e He'. rewrite He. rewrite !elem_of_app. right; right; right; right; left. done. }
    revert Hin. unfold getitem. rewrite Hrs, Hrd, Hms, Hmd. simpl. intros Hin. split.
    + intros Hlt. apply Hsub, Hin. destruct (decide (mtime md < mtime ms)); [left|lia].
    + split.
      * intros Hw. pose proof (operations_warn_ok src_files dst_files v trash_root
                                 rename_threshold metadata_only) as Hall.
        unfold gen_ev_all in Hall. rewrite Forall_forall in Hall.
        destruct (Hall _ Hw _ eq_refl) as (p' & ms' & md' & Hms' & Hmd' & Hlt & Hmsg).
        apply string_app_cancel_l in Hmsg. subst p'. congruence.
      * intros Hlt. apply Hsub, Hin.
        destruct (decide (mtime md < mtime ms)); [lia|].
        destruct (decide (mtime ms < mtime md)); [left|lia].
  - intros o Ho Hk.
    pose proof (operations_update_ok src_files dst_files v trash_root rename_threshold
                  metadata_only) as Hall.
    unfold gen_all in Hall. rewrite Forall_forall in Hall. by apply Hall.
Qed.


Lemma gen_fold_ext {S X} (b1 b2 : S -> X -> Gen S) s l :
  (forall s x, x ∈ l -> b1 s x = b2 s x) -> gen_fold b1 s l = gen_fold b2 s l.
Proof.
  revert s. induction l as [|x l IH]; intros s H; simpl; [done|].
  rewrite H by left. unfold mbind, Gen_bind.
  destruct (b2 s x) as [evs [e|s']]; simpl; [done|].
  rewrite IH; [done|]. intros s0 x0 Hx. apply H. by right.
Qed.

Lemma last_bytes_ext v1 v2 p :
  fs_last_bytes v1 p = fs_last_bytes v2 p -> _last_bytes v1 p = _last_bytes v2 p.
Proof. unfold _last_bytes. by intros ->. Qed.

(** C3 (as stated, refuted). The operations are not a function of the two
    snapshots and the parameters alone: with contents compared
    ([metadata_only = false]) the generator reads the last bytes of the
    candidate files from disk, and the same snapshots give a rename when
    they match and a creation when they do not. *)
Lemma operations_read_contents_cex :
  _operations Ex.S_ren Ex.D_ren Ex.v_same None (Some 10000) false <>
  _operations Ex.S_ren Ex.D_ren Ex.v_diff None (Some 10000) false.
Proof. vm_compute. discriminate. Qed.

(** C3 (amended). The run of [_operations] is a function of the two
    snapshots, the parameters and what the generator reads from disk. It
    reads [any(iterdir())] of each destination-only empty directory and,
    when contents are compared ([metadata_only] false, a rename threshold
    [t] set), the last bytes of the two files of each rename candidate
    pair: a source-only file [x] and a destination-only file [y] with the
    same signature [m], [size m >= t], each the only one on its side with
    [m]. Two disks that answer these reads alike give the same run; with
    [metadata_only] set no file contents enter at all. *)
Theorem operations_determined_by_reads (src_files dst_files : FileList) (v1 v2 : FsView)
    (trash_root : option string) (rename_threshold : option Z) (metadata_only : bool) :
  (forall relpath r, relpath ∈ empty_dirs dst_files ∖ empty_dirs src_files ->
     real_names dst_files !! relpath = Some r ->
     fs_iterdir_any v1 (path_join (root dst_files) r) =
     fs_iterdir_any v2 (path_join (root dst_files) r)) ->
  (forall t x y m, rename_threshold = Some t -> metadata_only = false -> t <= size m ->
     x ∈ src_only_relpaths src_files dst_files -> relpath_to_stats src_files !! x = Some m ->
     y ∈ dst_only_relpaths src_files dst_files -> relpath_to_stats dst_files !! y = Some m ->
     (forall x', x' ∈ src_only_relpaths src_files dst_files ->
        relpath_to_stats src_files !! x' = Some m -> x' = x) ->
     (forall y', y' ∈ dst_only_relpaths src_files dst_files ->
        relpath_to_stats dst_files !! y' = Some m -> y' = y) ->
     fs_last_bytes v1 (path_join (root src_files) x) = fs_last_bytes v2 (path_join (root src_files) x) /\
     fs_last_bytes v1 (path_join (root dst_files) y) = fs_last_bytes v2 (path_join (root dst_files) y)) ->
  _operations src_files dst_files v1 trash_root rename_threshold metadata_only =
  _operations src_files dst_files v2 trash_root rename_threshold metadata_only.
Proof.
  intros Hdir Hlb. unfold _operations.
  assert (ops_delete_dirs src_files dst_files v1 = ops_delete_dirs src_files dst_files v2) as ->.
  { unfold ops_delete_dirs, gen_for. apply gen_fold_ext. intros [] relpath Hin.
    apply elem_of_elements in Hin. unfold getitem.
    destruct (real_names dst_files !! relpath) as [r|] eqn:Er; [|done].
    unfold mbind, Gen_bind. simpl. by rewrite (Hdir relpath r Hin Er). }
  assert (ops_rename src_files dst_files v1 rename_threshold metadata_only
            (src_only_relpaths src_files dst_files) (dst_only_relpaths src_files dst_files) =
          ops_rename src_files dst_files v2 rename_threshold metadata_only
            (src_only_relpaths src_files dst_files) (dst_only_relpaths src_files dst_files)) as ->.
  2:{ reflexivity. }
  unfold ops_rename. destruct rename_threshold as [t|]; [|done].
  unfold mbind at 1 3, Gen_bind at 1 3.
  destruct (dict_comp _ (src_only_relpaths _ _)) as [e1 [err1|src_items]] eqn:Hsi; [done|].
  unfold mbind at 1 3, Gen_bind at 1 3.
  destruct (dict_comp _ (dst_only_relpaths _ _)) as [e2 [err2|dst_items]] eqn:Hdi; [done|].
  pose proof (dict_comp_items _ _ _ (f_equal snd Hsi)) as Hsi'.
  pose proof (dict_comp_items _ _ _ (f_equal snd Hdi)) as Hdi'.
  simpl.
  rewrite (gen_fold_ext (rename_step src_files dst_files v1 t metadata_only
                           (_reverse_dict src_items) (_reverse_dict dst_items))
                        (rename_step src_files dst_files v2 t metadata_only
                           (_reverse_dict src_items) (_reverse_dict dst_items))); [done|].
  intros [so do] y _. unfold rename_step, getitem.
  destruct (relpath_to_stats dst_files !! y) as [m|] eqn:Em; [|done].
  unfold mbind at 1 3, Gen_bind at 1 3. cbn [mret Gen_ret fst snd].
  apply (f_equal (fun g : Gen (list string * list string) => ([] ++ g.1, g.2))).
  destruct (decide (size m < t)) as [|Ht]; [done|].
  destruct (_reverse_dict src_items !! m) as [[rename_to|]|] eqn:Es; [|done|done].
  destruct (_reverse_dict dst_items !! m) as [[rename_from|]|] eqn:Ed; [|done|done].
  destruct metadata_only; [done|].
  apply reverse_dict_unique in Es as [Hxin Hxu].
  apply reverse_dict_unique in Ed as [Hyin Hyu].
  apply Hsi' in Hxin as [Hx Hxm]. apply Hdi' in Hyin as [Hy Hym].
  destruct (Hlb t rename_to rename_from m eq_refl eq_refl ltac:(lia) Hx Hxm Hy Hym) as [E1 E2].
  { intros x' Hx' Hm'. apply Hxu, Hsi'. done. }
  { intros y' Hy' Hm'. apply Hyu, Hdi'. done. }
  rewrite (last_bytes_ext _ _ _ E1), (last_bytes_ext _ _ _ E2). reflexivity.
Qed.

(** ** The filter engine *)

Lemma re_match_lits_cons (c : ascii) (w s : list ascii) (k : list ascii -> bool) :
  re_match (RSeq (map RLit (c :: w))) s k =
  match s with
  | d :: s' => bool_decide (d = c) && re_match (RSeq (map RLit w)) s' k
  | [] => false
  end.
Proof. destruct s; reflexivity. Qed.

Lemma re_match_lits (w s : list ascii) (k : list ascii -> bool) :
  re_match (RSeq (map RLit w)) s k =
  if bool_decide (w `prefix_of` s) then k (drop (length w) s) else false.
Proof.
  revert s. induction w as [|c w IH]; intros s.
  - rewrite bool_decide_true by apply prefix_nil. reflexivity.
  - rewrite re_match_lits_cons. destruct s as [|d s].
    + rewrite bool_decide_false; [done|]. intros H. by apply prefix_nil_inv in H.
    + rewrite IH. case_bool_decide as Hd.
      * subst d. rewrite andb_true_l. case_bool_decide as Hp; case_bool_decide as Hp'.
        -- reflexivity.
        -- exfalso. apply Hp'. by apply prefix_cons.
        -- exfalso. apply Hp. by apply prefix_cons_inv_2 in Hp'.
        -- reflexivity.
      * rewrite andb_false_l, bool_decide_false; [done|].
        intros H. apply prefix_cons_inv_1 in H. congruence.
Qed.

Lemma re_fullmatch_lits (w : list ascii) (p : string) :
  re_fullmatch (RSeq (map RLit w)) p = bool_decide (p = String.string_of_list_ascii w).
Proof.
  unfold re_fullmatch. rewrite re_match_lits.
  case_bool_decide as Hp; case_bool_decide as He.
  - subst p. rewrite String.list_ascii_of_string_of_list_ascii, drop_all. done.
  - destruct Hp as [t Ht]. destruct (drop _ _) eqn:Ed; [|done]. exfalso. apply He.
    rewrite Ht, drop_app_length in Ed. subst t. rewrite app_nil_r in Ht.
    rewrite <- Ht, String.string_of_list_ascii_of_string. done.
  - exfalso. apply Hp. subst p. rewrite String.list_ascii_of_string_of_list_ascii. done.
  - done.
Qed.

Lemma filter_ab_compiled :
  _Filter_init "- a/b/ + a/" false =
  Some (inr [(false, RSeq (map RLit ["a"; "/"; "b"; "/"]%char));
             (true, RSeq (map RLit ["a"; "/"]%char));
             (true, RSeq (map RLit ["a"; "/"]%char))]).
Proof. vm_compute. reflexivity. Qed.

(** A glob pattern without wildcards compiles to its literal text; a pattern
    ending in a separator matches only texts that end in one. *)

Lemma re_match_star r1 s k : re_match (RStar r1) s k = star_loop r1 k (S (length s)) s.
Proof. reflexivity. Qed.

Lemma star_loop_S r1 k n s :
  star_loop r1 k (S n) s =
  re_match r1 s (fun s' => if (length s' <? length s)%nat then star_loop r1 k n s' else false) || k s.
Proof. reflexivity. Qed.


Lemma fnmatch_translate_plain star qm prev part :
  Forall plain_char part -> fnmatch_translate star qm prev part = Some (map RLit part).
Proof.
  revert prev. induction part as [|c part IH]; intros prev Hp; [done|].
  apply Forall_cons in Hp as [(H1 & H2 & H3) Hp]. simpl.
  rewrite !bool_decide_false by done. rewrite IH by done. reflexivity.
Qed.

Lemma translate_parts_plain recursive ih parts :
  Forall (Forall plain_char) parts ->
  translate_parts recursive ih parts = Some (map RLit (join_sep parts)).
Proof.
  induction parts as [|part parts IH]; intros Hp; [done|].
  apply Forall_cons in Hp as [Hpart Hp]. cbn [translate_parts].
  rewrite bool_decide_false.
  2:{ intros ->. apply Forall_cons in Hpart as [(H1 & _) _]. done. }
  rewrite (bool_decide_false (part = _)), andb_false_r.
  2:{ intros ->. apply Forall_cons in Hpart as [(H1 & _) _]. done. }
  assert (Hh : match part with
               | c :: _ => if negb ih && bool_decide (c = "*"%char \/ c = "?"%char) then [RNotDot] else []
               | [] => []
               end = []).
  { destruct part as [|c part]; [done|]. apply Forall_cons in Hpart as [(H1 & H2 & _) _].
    rewrite bool_decide_false by tauto. by rewrite andb_false_r. }
  rewrite Hh.
  assert (Hb : match part with [] => Some [] | _ => fnmatch_translate (RStar not_sep) not_sep false part end
               = Some (map RLit part)).
  { destruct part; [done|]. by apply fnmatch_translate_plain. }
  rewrite Hb. simpl. rewrite IH by done. simpl.
  destruct parts as [|p ps]; simpl.
  - by rewrite !app_nil_r.
  - rewrite map_app. reflexivity.
Qed.

Lemma split_sep_ne s : split_sep s <> [].
Proof. destruct s as [|c s]; simpl; [done|]. case_bool_decide; [done|]. by destruct (split_sep s). Qed.

Lemma join_split_sep s : join_sep (split_sep s) = s.
Proof.
  induction s as [|c s IH]; [done|]. cbn [split_sep]. pose proof (split_sep_ne s) as Hne.
  case_bool_decide as Hc.
  - subst c. destruct (split_sep s) as [|p ps]; [done|].
    change (join_sep ([] :: p :: ps)) with ([] ++ "/"%char :: join_sep (p :: ps)). by rewrite IH.
  - destruct (split_sep s) as [|p ps]; [done|].
    destruct ps as [|p' ps].
    + simpl in IH |- *. by rewrite IH.
    + change (join_sep ((c :: p) :: p' :: ps)) with (c :: (p ++ "/"%char :: join_sep (p' :: ps))).
      change (join_sep (p :: p' :: ps)) with (p ++ "/"%char :: join_sep (p' :: ps)) in IH.
      by rewrite IH.
Qed.

Lemma split_sep_forall (P : ascii -> Prop) s :
  Forall P s -> Forall (Forall P) (split_sep s).
Proof.
  induction s as [|c s IH]; intros Hs; [repeat constructor|].
  apply Forall_cons in Hs as [Hc Hs]. simpl. case_bool_decide.
  - constructor; [constructor|]. by apply IH.
  - specialize (IH Hs). destruct (split_sep s) as [|p ps]; [repeat constructor; done|].
    apply Forall_cons in IH as [Hp Hps]. constructor; [by constructor|done].
Qed.

Lemma glob_translate_plain p recursive ih :
  Forall plain_char p -> glob_translate p recursive ih = Some (RSeq (map RLit p)).
Proof.
  intros Hp. unfold glob_translate.
  rewrite translate_parts_plain by (by apply split_sep_forall).
  rewrite join_split_sep. reflexivity.
Qed.


Lemma re_match_ext r : forall s k1 k2, (forall s', k1 s' = k2 s') -> re_match r s k1 = re_match r s k2.
Proof.
  induction r as [| p | r1 IH1 r2 IH2 | r1 IH1 r2 IH2 | r1 IH1 |]; intros s k1 k2 Hk;
    [simpl..| |simpl].
  - apply Hk.
  - destruct s; [done|]. by rewrite Hk.
  - apply IH1. intros s'. by apply IH2.
  - by rewrite (IH1 s k1 k2 Hk), (IH2 s k1 k2 Hk).
  - rewrite !re_match_star. generalize (S (length s)) as n. intros n. revert s.
    induction n as [|n IHn]; intros s; [apply Hk|]. rewrite !star_loop_S.
    rewrite Hk. f_equal. apply IH1. intros s'. destruct (length s' <? length s)%nat; [apply IHn|done].
  - destruct s as [|c s]; [apply Hk|]. destruct c as [[] [] [] [] [] [] [] []]; try apply Hk; done.
Qed.

Lemma re_match_RSeq_app l1 l2 s k :
  re_match (RSeq (l1 ++ l2)) s k = re_match (RSeq l1) s (fun s' => re_match (RSeq l2) s' k).
Proof.
  revert s k. induction l1 as [|x l1 IH]; intros s k; [done|].
  simpl. apply re_match_ext. intros s'. apply IH.
Qed.

Lemma re_match_suffix r : forall s k, re_match r s k = true -> exists s1 s2, s = s1 ++ s2 /\ k s2 = true.
Proof.
  induction r as [| p | r1 IH1 r2 IH2 | r1 IH1 r2 IH2 | r1 IH1 |]; intros s k H;
    [simpl in H..| |simpl in H].
  - by exists [], s.
  - destruct s as [|c s]; [done|]. apply andb_true_iff in H as [_ H]. by exists [c], s.
  - destruct (IH1 _ _ H) as (a & s' & -> & H2). destruct (IH2 _ _ H2) as (b & s2 & -> & Hk).
    exists (a ++ b), s2. by rewrite app_assoc.
  - apply orb_true_iff in H as [H|H]; [apply (IH1 _ _ H)|apply (IH2 _ _ H)].
  - rewrite re_match_star in H. revert H. generalize (S (length s)) as n. intros n. revert s.
    induction n as [|n IHn]; intros s H; [by exists [], s|]. rewrite star_loop_S in H.
    apply orb_true_iff in H as [H|H]; [|by exists [], s].
    destruct (IH1 _ _ H) as (a & s' & -> & H2).
    destruct (length s' <? length (a ++ s'))%nat; [|done].
    destruct (IHn _ H2) as (b & s2 & -> & Hk). exists (a ++ b), s2. by rewrite app_assoc.
  - exists [], s. destruct s as [|c s]; [done|].
    destruct c as [[] [] [] [] [] [] [] []]; done.
Qed.

Lemma dir_prefix_app a b : dir_prefix a -> dir_prefix b -> dir_prefix (a ++ b).
Proof.
  intros Ha [->|[b0 ->]]; [by rewrite app_nil_r|]. right. exists (a ++ b0). by rewrite app_assoc.
Qed.

Lemma cdp_eps : consumes_dir_prefix REps.
Proof. intros s k H. exists [], s. split; [done|]. split; [done|]. by left. Qed.

Lemma cdp_cat r1 r2 : consumes_dir_prefix r1 -> consumes_dir_prefix r2 -> consumes_dir_prefix (RCat r1 r2).
Proof.
  intros H1 H2 s k H. simpl in H.
  destruct (H1 _ _ H) as (a & s' & -> & Hs' & Ha). destruct (H2 _ _ Hs') as (b & s2 & -> & Hk & Hb).
  exists (a ++ b), s2. split; [by rewrite app_assoc|]. split; [done|]. by apply dir_prefix_app.
Qed.

Lemma cdp_cat_sep r : consumes_dir_prefix (RCat r any_sep).
Proof.
  intros s k H. simpl in H. destruct (re_match_suffix _ _ _ H) as (a & s' & -> & Hs').
  destruct s' as [|c s2]; [done|]. apply andb_true_iff in Hs' as [Hc Hk].
  apply bool_decide_eq_true_1 in Hc. subst c.
  exists (a ++ ["/"%char]), s2. split; [by rewrite <- app_assoc|]. split; [done|]. right. by exists a.
Qed.

Lemma cdp_alt r1 r2 : consumes_dir_prefix r1 -> consumes_dir_prefix r2 -> consumes_dir_prefix (RAlt r1 r2).
Proof. intros H1 H2 s k H. simpl in H. apply orb_true_iff in H as [H|H]; [apply H1|apply H2]; done. Qed.

Lemma cdp_star r : consumes_dir_prefix r -> consumes_dir_prefix (RStar r).
Proof.
  intros Hr s k H. rewrite re_match_star in H. revert H. generalize (S (length s)) as n. intros n.
  revert s.
  induction n as [|n IHn]; intros s H; [exists [], s; split; [done|]; split; [done|]; by left|].
  rewrite star_loop_S in H. apply orb_true_iff in H as [H|H]; [|exists [], s; split; [done|]; split; [done|]; by left].
  destruct (Hr _ _ H) as (a & s' & -> & H2 & Ha).
  destruct (length s' <? length (a ++ s'))%nat; [|done].
  destruct (IHn _ H2) as (b & s2 & -> & Hk & Hb). exists (a ++ b), s2.
  split; [by rewrite app_assoc|]. split; [done|]. by apply dir_prefix_app.
Qed.

Lemma cdp_seq_app l1 l2 :
  consumes_dir_prefix (RSeq l1) -> consumes_dir_prefix (RSeq l2) -> consumes_dir_prefix (RSeq (l1 ++ l2)).
Proof.
  intros H1 H2 s k H. rewrite re_match_RSeq_app in H.
  destruct (H1 _ _ H) as (a & s' & -> & Hs' & Ha). destruct (H2 _ _ Hs') as (b & s2 & -> & Hk & Hb).
  exists (a ++ b), s2. split; [by rewrite app_assoc|]. split; [done|]. by apply dir_prefix_app.
Qed.

Lemma cdp_seq_sep l : consumes_dir_prefix (RSeq (l ++ [any_sep])).
Proof.
  intros s k H. rewrite re_match_RSeq_app in H.
  destruct (re_match_suffix _ _ _ H) as (a & s' & -> & Hs').
  destruct s' as [|c s2]; [done|]. simpl in Hs'. apply andb_true_iff in Hs' as [Hc Hk].
  apply bool_decide_eq_true_1 in Hc. subst c.
  exists (a ++ ["/"%char]), s2. split; [by rewrite <- app_assoc|]. split; [done|]. right. by exists a.
Qed.

Lemma cdp_any_segments ih : consumes_dir_prefix (any_segments ih).
Proof.
  destruct ih; simpl.
  - apply cdp_alt; [apply cdp_cat_sep|apply cdp_eps].
  - apply cdp_star. apply cdp_cat_sep.
Qed.

Lemma split_sep_snoc_sep s : split_sep (s ++ ["/"%char]) = split_sep s ++ [[]].
Proof.
  induction s as [|c s IH]; [reflexivity|]. simpl. rewrite IH.
  case_bool_decide; [done|]. pose proof (split_sep_ne s) as Hne.
  destruct (split_sep s); [done|]. reflexivity.
Qed.

Lemma translate_parts_dir recursive ih parts L :
  translate_parts recursive ih (parts ++ [[]]) = Some L -> consumes_dir_prefix (RSeq L).
Proof.
  revert L. induction parts as [|part parts IH]; intros L H.
  - vm_compute in H. destruct recursive; injection H as <-; apply cdp_eps.
  - rewrite <- app_comm_cons in H. cbn [translate_parts] in H.
    destruct (parts ++ [[]]) as [|nx ns] eqn:Er; [by destruct parts|].
    case_bool_decide as Hstar.
    + destruct (translate_parts recursive ih (nx :: ns)) as [tl|] eqn:Et; [|done].
      simpl in H. injection H as <-. apply (cdp_cat _ (RSeq tl)); [apply cdp_cat_sep|by apply IH].
    + destruct (recursive && bool_decide (part = ["*"%char; "*"%char])) eqn:Edstar.
      * case_bool_decide.
        -- by apply IH.
        -- destruct (translate_parts recursive ih (nx :: ns)) as [tl|] eqn:Et; [|done].
           simpl in H. injection H as <-. apply (cdp_cat _ (RSeq tl)); [apply cdp_any_segments|by apply IH].
      * destruct (match part with [] => Some [] | _ => _ end) as [body|]; [|done].
        destruct (translate_parts recursive ih (nx :: ns)) as [tl|] eqn:Et; [|done].
        simpl in H. injection H as <-.
        match goal with |- consumes_dir_prefix (RSeq (?h ++ ?b ++ any_sep :: ?t)) =>
          replace (h ++ b ++ any_sep :: t) with (((h ++ b) ++ [any_sep]) ++ t)
            by (by rewrite <- !app_assoc) end.
        apply cdp_seq_app; [apply cdp_seq_sep|by apply IH].
Qed.

Lemma string_of_list_ascii_app (a b : list ascii) :
  String.string_of_list_ascii (a ++ b) = (String.string_of_list_ascii a +:+ String.string_of_list_ascii b)%string.
Proof. induction a as [|c a IH]; simpl; [done|]. by rewrite IH. Qed.

Lemma glob_translate_dir p recursive ih r q :
  glob_translate (p ++ ["/"%char]) recursive ih = Some r -> re_fullmatch r q = true ->
  q = ""%string \/ exists q0, q = (q0 +:+ "/")%string.
Proof.
  unfold glob_translate. rewrite split_sep_snoc_sep.
  destruct (translate_parts _ _ _) as [L|] eqn:E; [|done]. simpl. intros [= <-] Hm.
  destruct (translate_parts_dir _ _ _ _ E _ _ Hm) as (s1 & s2 & Hs & Hk & Hd).
  destruct s2; [|done]. rewrite app_nil_r in Hs.
  rewrite <- (String.string_of_list_ascii_of_string q), Hs.
  destruct Hd as [->|[s0 ->]]; [by left|right].
  exists (String.string_of_list_ascii s0). by rewrite string_of_list_ascii_app.
Qed.


(** ** The copy and move primitives *)

Section MoveFacts.
Variable ci : bool.






End MoveFacts.

Ltac cm_destruct H :=
  match type of H with
  | context [match ?x with _ => _ end] =>
      lazymatch x with
      | context [match _ with _ => _ end] => fail
      | _ => destruct x eqn:?
      end
  end.

Lemma delete_loop_frame ci fuel dir root d :
  let '(d', r) := delete_loop ci fuel dir root d in
  fs_files d' = fs_files d /\ fs_dirs d' ⊆ fs_dirs d /\
  (r = inr tt \/ exists k, r = inl (OSError k)).
Proof.
  revert dir d. induction fuel as [|f IH]; intros dir d; simpl; [auto|].
  case_bool_decide; [simpl; auto|].
  unfold mbind, DM_bind, m_iterdir_any.
  destruct (negb (is_dir_in d (key ci dir))); [simpl; eauto|].
  destruct (bool_decide _); [simpl; auto|].
  unfold m_rmdir.
  destruct (bool_decide (key ci dir = [])); [simpl; eauto|].
  destruct (negb (is_dir_in d (key ci dir))); [simpl; eauto|].
  destruct (bool_decide _); [simpl; eauto|].
  specialize (IH (parent dir) (mkDisk (fs_files d) (fs_dirs d ∖ {[key ci dir]}))).
  destruct (delete_loop _ _ _ _ _) as [d3 r]. simpl in IH. destruct IH as (-> & Hs & Hr).
  split; [done|]. split; [set_solver|done].
Qed.


Lemma move_check_dst_ok ci src dst exist_ok d d1 :
  move_check_dst ci src dst exist_ok d = (d1, inr tt) ->
  d1 = d /\ (is_Some (fs_files d !! key ci src) -> key ci src <> key ci dst).
Proof.
  unfold move_check_dst, mbind, DM_bind, m_exists, m_is_file, m_samefile, dm_raise, mret, DM_ret.
  intros Hc.
  repeat (cbn -[is_dir_in is_file_in key] in Hc; cm_destruct Hc); simplify_eq;
    (split; [done|]); intros [f Hf] Heq;
    repeat match goal with
    | H : (_ || _) = false |- _ => apply orb_false_iff in H as [? ?]
    | H : negb _ = false |- _ => apply negb_false_iff in H
    end;
    try (match goal with
         | H : bool_decide _ = false |- _ => apply bool_decide_eq_false_1 in H; contradiction
         end);
    unfold is_file_in in *; rewrite <- Heq in *;
    match goal with
    | H : bool_decide (key ci src ∈ dom _) = false |- _ =>
        apply bool_decide_eq_false_1 in H; apply H; apply elem_of_dom; eauto
    end.
Qed.


Lemma move_steps ci src dst exist_ok under d d' :
  _move ci src dst exist_ok under d = (d', inr tt) ->
  exists f d2, fs_files d !! key ci src = Some f /\ key ci src <> key ci dst /\
    fs_files d2 = <[key ci dst := f]> (delete (key ci src) (fs_files d)) /\
    fs_dirs d ⊆ fs_dirs d2 /\
    match under with
    | None => d' = d2
    | Some root => root `prefix_of` parent src /\
        dm_catch_os (delete_loop ci (S (length (parent src))) (parent src) root) d2 = (d', inr tt)
    end.
Proof.
  unfold _move, mbind, DM_bind.
  destruct (move_check_dst ci src dst exist_ok d) as [d1 [e|[]]] eqn:Hc; [done|].
  apply move_check_dst_ok in Hc as [-> Hne].
  unfold m_mkdir_parents. destruct (bool_decide _); [done|].
  unfold m_replace; cbn -[is_dir_in _delete_empty_dirs].
  destruct (fs_files d !! key ci src) as [f|] eqn:Ef; [|done].
  destruct (is_dir_in _ (key ci dst)); [done|].
  destruct (negb _); [done|].
  intros H. match type of H with _ ?d2 = _ => exists f, d2 end. split; [done|]. split; [by apply Hne|].
  split; [reflexivity|]. split; [simpl; set_solver|].
  destruct under as [root|]; [|unfold mret, DM_ret in H; by simplify_eq].
  unfold _delete_empty_dirs, mbind, DM_bind, m_is_dir, dm_raise in H.
  destruct (negb _); [done|]. case_bool_decide; [|done]. split; [done|]. exact H.
Qed.

(** ** Filtering, copying, moving and the entry point *)

(** C4 (as stated, refuted). Under [- a/b/ + a/] the file [a/d.txt] is
    not included: no rule matches it, so the default [False] applies. *)
Lemma filter_a_d_txt_cex :
  match _Filter_init "- a/b/ + a/" false with
  | Some (inr pats) => _Filter_filter pats "a/d.txt" false = false
  | _ => False
  end.
Proof. vm_compute. reflexivity. Qed.

(** C4 (amended). [_Filter.filter] returns the action of the first rule
    whose regular expression matches the whole path, and the caller's
    default when none does. A pattern without wildcards ([*], [?], [[])
    compiles to its literal text and matches exactly that path; a pattern
    ending in [/] matches only the empty path and paths that end in [/]
    (directory queries). So [- a/b/ + a/] compiles to [- a/b/], [+ a/]
    and the implicit parent [+ a/]; it excludes the directory query
    [a/b/], includes the directory query [a/], and leaves every other
    path, the files [a/b/c.txt] and [a/d.txt] included, to the default. *)
Theorem filter_first_match :
  (forall pats relpath default,
     _Filter_filter pats relpath default =
     match list_find (fun r : Rule => re_fullmatch r.2 relpath = true) pats with
     | Some (_, (action, _)) => action
     | None => default
     end) /\
  (forall p recursive ih, Forall plain_char p ->
     glob_translate p recursive ih = Some (RSeq (map RLit p)) /\
     forall q, re_fullmatch (RSeq (map RLit p)) q = bool_decide (q = String.string_of_list_ascii p)) /\
  (forall p recursive ih r q,
     glob_translate (p ++ ["/"%char]) recursive ih = Some r -> re_fullmatch r q = true ->
     q = ""%string \/ exists q0, q = (q0 +:+ "/")%string) /\
  exists pats, _Filter_init "- a/b/ + a/" false = Some (inr pats) /\
    forall relpath default,
      _Filter_filter pats relpath default =
      if bool_decide (relpath = "a/b/") then false
      else if bool_decide (relpath = "a/") then true else default.
Proof.
  split; [|split; [|split]].
  - intros pats relpath default. induction pats as [|[a r] pats IH]; simpl; [done|].
    rewrite IH.
    destruct (re_fullmatch r relpath) eqn:E.
    + rewrite decide_True by done. done.
    + rewrite decide_False by congruence.
      destruct (list_find _ pats) as [[i [a' r']]|]; simpl; done.
  - intros p recursive ih Hp. split; [by apply glob_translate_plain|].
    intros q. apply re_fullmatch_lits.
  - apply glob_translate_dir.
  - eexists. split; [apply filter_ab_compiled|]. intros relpath default. cbn [_Filter_filter].
    rewrite !re_fullmatch_lits. simpl.
    case_bool_decide; [done|]. case_bool_decide; done.
Qed.

(** C5 (refuted: a failed copy leaves its temporary file). When the data
    write of [shutil.copy2] into [dst.tempcopy] fails with ENOSPC, [_copy]
    raises, and [dst.tempcopy] stays on disk: [delete_tmp] is set only
    after [copy2] returns, so the [finally] block does not unlink it. *)
Theorem copy_enospc_leaves_tempcopy :
  let '(st, r) := _copy Ex.fault_enospc ["s"; "f"]%string ["d"; "f"]%string true
                    (mkCS Ex.disk_copy 0 false false) in
  r = inl (OSError NoSpaceError) /\
  is_file_in (cs_fs st) (tempcopy ["d"; "f"]%string) = true.
Proof. vm_compute. split; reflexivity. Qed.



(** C10 (refuted: [sync] can raise). With [log=auto] and the temporary
    directory on another file system than the home directory, the
    [os.replace] of the temporary log onto the log path, in the [finally]
    block of [sync], raises OSError (EXDEV); the exception leaves [sync]
    and no [Results] is returned. *)
Theorem sync_log_replace_raises :
  sync Ex.w_tmpfs Ex.args_auto_log = inl (OSError CrossDeviceError).
Proof. vm_compute. reflexivity. Qed.

(** ** Further properties of the planner, the primitives and [sync] *)

Lemma gen_all_impl (P Q : Op -> Prop) {A} (m : Gen A) :
  (forall o, P o -> Q o) -> gen_all P m -> gen_all Q m.
Proof. unfold gen_all. intros H Hm. eapply Forall_impl; eauto. Qed.

(** Without a trash root no deletion is planned, and without a rename
    threshold no rename is planned. *)
Theorem operations_disabled_phases (src_files dst_files : FileList) (v : FsView)
    (trash_root : option string) (rename_threshold : option Z) (metadata_only : bool) :
  gen_all (fun o => op_kind o <> "-")
    (_operations src_files dst_files v None rename_threshold metadata_only) /\
  gen_all (fun o => op_kind o <> "R")
    (_operations src_files dst_files v trash_root None metadata_only).
Proof.
  split; unfold _operations.
  - apply gen_all_bind; [eapply gen_all_impl; [|apply delete_dirs_kind]; intros o -> ?; discriminate|intros _ _].
    apply gen_all_bind; [eapply gen_all_impl; [|apply rename_kind]; intros o -> ?; discriminate|intros [so do] _].
    apply gen_all_bind; [apply gen_all_ret|intros _ _].
    apply gen_all_bind; [eapply gen_all_impl; [|apply create_kind]; intros o -> ?; discriminate|intros _ _].
    apply gen_all_bind; [eapply gen_all_impl; [|apply update_kind]; intros o -> ?; discriminate|intros _ _].
    eapply gen_all_impl; [|apply create_dirs_kind]; intros o -> ?; discriminate.
  - apply gen_all_bind; [eapply gen_all_impl; [|apply delete_dirs_kind]; intros o -> ?; discriminate|intros _ _].
    apply gen_all_bind; [apply gen_all_ret|intros [so do] _].
    apply gen_all_bind; [eapply gen_all_impl; [|apply delete_kind]; intros o -> ?; discriminate|intros _ _].
    apply gen_all_bind; [eapply gen_all_impl; [|apply create_kind]; intros o -> ?; discriminate|intros _ _].
    apply gen_all_bind; [eapply gen_all_impl; [|apply update_kind]; intros o -> ?; discriminate|intros _ _].
    eapply gen_all_impl; [|apply create_dirs_kind]; intros o -> ?; discriminate.
Qed.

Lemma operations_same_snapshots (src_files dst_files : FileList) (v : FsView)
    (trash_root : option string) (rename_threshold : option Z) (metadata_only : bool) :
  relpath_to_stats src_files = relpath_to_stats dst_files ->
  empty_dirs src_files = empty_dirs dst_files ->
  (_operations src_files dst_files v trash_root rename_threshold metadata_only).1 = [].
Proof.
  intros Hs Hd.
  assert (Hall : gen_ev_all (fun _ => False)
     (_operations src_files dst_files v trash_root rename_threshold metadata_only)).
  { unfold _operations.
    assert (Hso : src_only_relpaths src_files dst_files = []).
    { unfold src_only_relpaths. rewrite Hs, difference_diag_L, elements_empty. reflexivity. }
    assert (Hdo : dst_only_relpaths src_files dst_files = []).
    { unfold dst_only_relpaths. rewrite Hs, difference_diag_L, elements_empty. reflexivity. }
    rewrite Hso, Hdo.
    unfold ops_delete_dirs, ops_create_dirs. rewrite Hd, difference_diag_L, elements_empty.
    apply gen_ev_all_bind; [apply gen_ev_all_ret|intros _ _].
    assert (Hr : ops_rename src_files dst_files v rename_threshold metadata_only [] []
                 = mret ([], [])).
    { destruct rename_threshold; reflexivity. }
    rewrite Hr. apply gen_ev_all_bind; [apply gen_ev_all_ret|intros [so do] Hsd].
    simpl in Hsd. injection Hsd as <- <-.
    apply gen_ev_all_bind; [destruct trash_root; apply gen_ev_all_ret|intros _ _].
    apply gen_ev_all_bind; [apply gen_ev_all_ret|intros _ _].
    apply gen_ev_all_bind; [|intros _ _; apply gen_ev_all_ret].
    unfold ops_update. gen_ev_all_split;
      match goal with
      | H : relpath_to_stats src_files !! _ = _, H' : relpath_to_stats dst_files !! _ = _ |- _ =>
        rewrite Hs, H' in H; injection H as ->; lia
      end. }
  unfold gen_ev_all in Hall.
  destruct (_operations _ _ _ _ _ _).1 as [|e l]; [reflexivity|].
  inversion Hall; contradiction.
Qed.

(** Two snapshots with the same files and signatures and the same empty
    directories (their roots and real names may differ): the planner emits
    no operation and no warning. *)
Theorem operations_identical_no_events (r1 r2 : string) (stats : gmap string Metadata)
    (names1 names2 : gmap string string) (dirs : gset string) (v : FsView)
    (trash_root : option string) (rename_threshold : option Z) (metadata_only : bool) :
  (_operations (mkFileList r1 stats names1 dirs) (mkFileList r2 stats names2 dirs) v
     trash_root rename_threshold metadata_only).1 = [].
Proof. by apply operations_same_snapshots. Qed.

(** [_reverse_dict] maps a value met once to its key, a value met twice
    or more to [None], and has no entry for a value never met. *)
Theorem reverse_dict_lookup {K V} `{Countable V} (items : list (K * V)) (val : V) :
  _reverse_dict items !! val =
  match filter (fun kv => kv.2 = val) items with
  | [] => None
  | [(k, _)] => Some (Some k)
  | _ => Some None
  end.
Proof. rewrite reverse_dict_spec. reflexivity. Qed.



Lemma string_length_app (s t : string) :
  String.length (s +:+ t) = (String.length s + String.length t)%nat.
Proof. induction s as [|c s IH]; simpl; auto. Qed.

Lemma tempcopy_ne (dst : Path) : dst <> [] -> tempcopy dst <> dst.
Proof.
  intros Hd. destruct dst as [|x l _] using rev_ind; [done|].
  unfold tempcopy, with_name, parent, name. rewrite removelast_last, last_snoc. simpl.
  intros Heq. apply app_inj_tail in Heq as [_ Heq].
  apply (f_equal String.length) in Heq. rewrite string_length_app in Heq. simpl in Heq. lia.
Qed.

Lemma tempcopy_not_ancestor (dst : Path) :
  tempcopy dst ∉ (list_to_set (map (fun n => take n (parent dst)) (seq 1 (length (parent dst))))
                   : gset Path).
Proof.
  rewrite elem_of_list_to_set, list_elem_of_In, in_map_iff. intros (n & Heq & _).
  apply (f_equal length) in Heq. unfold tempcopy, with_name in Heq.
  rewrite length_app, length_take in Heq. simpl in Heq. lia.
Qed.

Lemma tempcopy_nil (dst : Path) : tempcopy dst <> [].
Proof. unfold tempcopy, with_name. by destruct (parent dst). Qed.

(** When [_copy src dst] returns (no tempcopy directory in the way), [dst]
    holds the bytes and mtime [src] had, the temporary copy is gone, and
    no other file changed. *)
Theorem copy_success fault src dst exist_ok st st' :
  tempcopy dst ∉ fs_dirs (cs_fs st) ->
  _copy fault src dst exist_ok st = (st', inr tt) ->
  exists f, fs_files (cs_fs st) !! src = Some f /\
    (exists m, fs_files (cs_fs st') !! dst = Some (mkFile (fdata f) m (fmtime f))) /\
    fs_files (cs_fs st') !! tempcopy dst = None /\
    (forall p, p <> dst -> p <> tempcopy dst ->
       fs_files (cs_fs st') !! p = fs_files (cs_fs st) !! p).
Proof.
  intros Htd H.
  unfold _copy, copy_check_dst, path_exists, is_file, samefile, cm_raise, set_delete_tmp,
    try_finally, mkdir_parents, copy2, cm_get, open_read, open_write, write_data, copystat,
    try_except_perm, replace, replace_readonly, set_make_readonly, stat_mode, chmod, unlink,
    syscall, mbind, CM_bind, mret, CM_ret in H.
  unfold try_finally, replace, set_delete_tmp, stat_mode, chmod, cm_raise, set_make_readonly,
    cm_get, syscall, mbind, CM_bind, mret, CM_ret in H.
  repeat (cbn -[is_dir_in is_file_in tempcopy parent name] in H;
          cbv beta iota zeta delta [cs_delete_tmp cs_make_readonly] in H; cm_destruct H);
    try discriminate;
    injection H as <-; cbn -[is_dir_in is_file_in tempcopy parent name];
    (match goal with Hb : bool_decide (dst = []) = false |- _ =>
       apply bool_decide_eq_false in Hb; pose proof (tempcopy_ne dst Hb) as Hne end);
    try (match goal with Hb : is_dir_in _ (tempcopy dst) = true |- _ =>
         exfalso; unfold is_dir_in in Hb; apply bool_decide_eq_true in Hb; simpl in Hb;
         pose proof (tempcopy_not_ancestor dst); pose proof (tempcopy_nil dst); set_solver end);
    destruct (decide (src = tempcopy dst)) as [->|Hs]; simplify_map_eq;
    (eexists; split; [reflexivity|]; split; [eexists; reflexivity|]; split; [reflexivity|];
     intros p Hp1 Hp2; simplify_map_eq; reflexivity).
Qed.

(** [_copy src dst] with an existing [dst] that it may not overwrite
    ([exist_ok] false, or [dst] not a regular file) raises FileExistsError
    before any system call: nothing changes. *)
Theorem copy_exists_raises fault src dst exist_ok st :
  (is_file_in (cs_fs st) dst || is_dir_in (cs_fs st) dst) &&
  (negb exist_ok || negb (is_file_in (cs_fs st) dst)) = true ->
  _copy fault src dst exist_ok st = (st, inl (OSError FileExistsError)).
Proof.
  intros H. apply andb_prop in H as [He Hk].
  unfold _copy, copy_check_dst, path_exists, is_file, cm_raise, mbind, CM_bind.
  rewrite He. destruct exist_ok; simpl in *; [|reflexivity].
  destruct (is_file_in (cs_fs st) dst); [discriminate|reflexivity].
Qed.



Lemma delete_empty_dirs_frame ci dir root d :
  let '(d', r) := _delete_empty_dirs ci dir root d in
  fs_files d' = fs_files d /\ fs_dirs d' ⊆ fs_dirs d /\ (r = inr tt \/ r = inl ValueError).
Proof.
  unfold _delete_empty_dirs, mbind, DM_bind, m_is_dir, dm_raise.
  destruct (negb _); [simpl; auto|].
  destruct (negb _); [simpl; auto|].
  unfold dm_catch_os. pose proof (delete_loop_frame ci (S (length dir)) dir root d) as Hf.
  destruct (delete_loop _ _ _ _ _) as [d' r]. destruct Hf as (? & ? & [->|[k ->]]); simpl; auto.
Qed.

(** [_delete_empty_dirs] changes no file and only removes directories;
    the only exception it raises is ValueError (an OSError inside the
    loop is caught). *)
Theorem delete_empty_dirs_only_dirs ci dir root d :
  let '(d', r) := _delete_empty_dirs ci dir root d in
  fs_files d' = fs_files d /\ fs_dirs d' ⊆ fs_dirs d /\ (r = inr tt \/ r = inl ValueError).
Proof. apply delete_empty_dirs_frame. Qed.

(** When [_move src dst] returns, the source and the destination are
    different paths (after case folding), the file that was at [src] is at
    [dst], [src] is gone, and every other file is as before. *)
Theorem move_files ci src dst exist_ok under d d' :
  _move ci src dst exist_ok under d = (d', inr tt) ->
  exists f, fs_files d !! key ci src = Some f /\ key ci src <> key ci dst /\
    fs_files d' = <[key ci dst := f]> (delete (key ci src) (fs_files d)) /\
    fs_files d' !! key ci src = None.
Proof.
  intros H. destruct (move_steps ci src dst exist_ok under d d' H) as (f & d2 & Hf & Hne & Hd2 & _ & Hu).
  exists f. split; [done|]. split; [done|].
  assert (fs_files d' = fs_files d2) as ->.
  { destruct under as [root|]; [|by subst].
    destruct Hu as [_ Hl]. unfold dm_catch_os in Hl.
    pose proof (delete_loop_frame ci (S (length (parent src))) (parent src) root d2) as Hfr.
    destruct (delete_loop _ _ _ _ _) as [d3 r]. destruct Hfr as (Hff & _ & Hr).
    destruct Hr as [->|[k ->]]; simplify_eq; done. }
  rewrite Hd2. split; [done|]. by simplify_map_eq.
Qed.

Lemma hrs_loop_spec f a i :
  0 <= a -> (i <= 5)%nat -> (6 <= f + i)%nat ->
  (i = 0%nat \/ 1024 ^ Z.of_nat i <= a) ->
  exists j, (i <= j <= 5)%nat /\ (j = 0%nat \/ 1024 ^ Z.of_nat j <= a) /\
    (j = 5%nat \/ a < 1024 ^ (Z.of_nat j + 1)) /\
    hrs_loop f (a / 1024 ^ Z.of_nat i) i = (a / 1024 ^ Z.of_nat j, j).
Proof.
  revert i. induction f as [|f IH]; intros i Ha Hi Hf Hlo; [lia|].
  assert (Hp : 0 < 1024 ^ Z.of_nat i) by (apply Z.pow_pos_nonneg; lia).
  cbn [hrs_loop]. change (length hrs_units - 1)%nat with 5%nat.
  destruct (1024 <=? a / 1024 ^ Z.of_nat i) eqn:E1; destruct (i <? 5)%nat eqn:E2; simpl.
  - apply Z.leb_le in E1. apply Nat.ltb_lt in E2.
    assert (Hs : 1024 ^ Z.of_nat (S i) <= a).
    { rewrite Nat2Z.inj_succ, Z.pow_succ_r by lia.
      pose proof (Z.mul_div_le a (1024 ^ Z.of_nat i) Hp). nia. }
    destruct (IH (S i)) as (j & Hj & Hjlo & Hjhi & Heq); [lia|lia|lia|right; done|].
    exists j. split; [lia|]. split; [done|]. split; [done|].
    replace (a / 1024 ^ Z.of_nat i / 1024) with (a / 1024 ^ Z.of_nat (S i)); [exact Heq|].
    rewrite Nat2Z.inj_succ, Z.pow_succ_r, Z.div_div by lia. f_equal. ring.
  - apply Nat.ltb_ge in E2. exists i. split; [lia|]. split; [done|]. split; [left; lia|done].
  - apply Z.leb_gt in E1. exists i. split; [lia|]. split; [done|]. split; [|done].
    right. rewrite Z.pow_add_r, Z.pow_1_r by lia.
    pose proof (Z.mul_succ_div_gt a (1024 ^ Z.of_nat i) Hp). nia.
  - apply Nat.ltb_ge in E2. exists i. split; [lia|]. split; [done|]. split; [left; lia|done].
Qed.

(** [_human_readable_size n] is the sign of [n], then [|n|] divided by
    [1024^i] (rounded down), then the [i]-th unit, where [i] is the
    largest unit index (at most 5, [PB]) with [1024^i <= |n|]. *)
Theorem human_readable_size_unit (n : Z) :
  exists i : nat, (i <= 5)%nat /\
    (i = 0%nat \/ 1024 ^ Z.of_nat i <= Z.abs n) /\
    (i = 5%nat \/ Z.abs n < 1024 ^ (Z.of_nat i + 1)) /\
    _human_readable_size n =
      (if n <? 0 then "-" else "+") +:+ pretty (Z.abs n / 1024 ^ Z.of_nat i) +:+ " "
      +:+ default "" (hrs_units !! i).
Proof.
  destruct (hrs_loop_spec 6 (Z.abs n) 0) as (j & Hj & Hlo & Hhi & Heq); [lia|lia|lia|left; done|].
  exists j. split; [lia|]. split; [done|]. split; [done|].
  change (1024 ^ Z.of_nat 0) with 1 in Heq. rewrite Z.div_1_r in Heq.
  unfold _human_readable_size. change (length hrs_units) with 6%nat. rewrite Heq. reflexivity.
Qed.

(** [_last_bytes data n] never raises: it returns a suffix of [data] of
    length [n] clipped to [0 .. len(data)]. *)
Theorem last_bytes_suffix (data : list Byte.byte) (n : Z) :
  exists suf, _last_bytes_of data n = inr suf /\ suf `suffix_of` data /\
    Z.of_nat (length suf) = Z.max 0 (Z.min n (Z.of_nat (length data))).
Proof.
  unfold _last_bytes_of.
  set (len := Z.of_nat (length data)).
  rewrite Z.gtb_ltb.
  destruct (len <? n) eqn:Hn; [apply Z.ltb_lt in Hn | apply Z.ltb_ge in Hn];
    (rewrite (proj2 (Z.ltb_ge _ _)) by lia);
    eexists; (split; [reflexivity|]); (split; [apply suffix_drop|]);
    rewrite length_drop; lia.
Qed.

Section Pres.
Context (P : SyncLocals -> Prop).

Lemma pres_ret {A} (x : A) : sm_pres P (mret x).
Proof. intros l H. exact H. Qed.
Lemma pres_raise {A} e : sm_pres P (sm_raise (A:=A) e).
Proof. intros l H. exact H. Qed.
Lemma pres_check b e : sm_pres P (sm_check b e).
Proof. unfold sm_check. destruct b; [apply pres_raise|apply pres_ret]. Qed.
Lemma pres_lift {A} (r : PyExc + A) : sm_pres P (sm_lift r).
Proof. intros l H. exact H. Qed.
Lemma pres_opt r : sm_pres P (sm_opt r).
Proof. unfold sm_opt. destruct r; [apply pres_raise|apply pres_ret]. Qed.
Lemma pres_modify f : (forall l, P l -> P (f l)) -> sm_pres P (sm_modify f).
Proof. intros Hf l H. by apply Hf. Qed.
Lemma pres_bind {A B} (m : SM A) (f : A -> SM B) :
  sm_pres P m -> (forall a, sm_pres P (f a)) -> sm_pres P (m ≫= f).
Proof.
  intros Hm Hf l H. unfold mbind, SM_bind.
  specialize (Hm l H). destruct (m l) as [l' [e|a]]; simpl in *; [done|]. by apply Hf.
Qed.
End Pres.

Ltac pres_split :=
  repeat match goal with
  | |- sm_pres _ (mbind _ _) => apply pres_bind; [|intros ?]
  | |- sm_pres _ (mret _) => apply pres_ret
  | |- sm_pres _ (sm_raise _) => apply pres_raise
  | |- sm_pres _ (sm_check _ _) => apply pres_check
  | |- sm_pres _ (sm_lift _) => apply pres_lift
  | |- sm_pres _ (sm_opt _) => apply pres_opt
  | |- sm_pres _ (match ?x with _ => _ end) => destruct x
  | |- sm_pres _ (if ?b then _ else _) => destruct b
  end.

Section SyncInv.
Variable w : World.
Variable P : Results -> Prop.
Hypothesis P_paths : forall t lf r, P r -> P (set_paths t lf r).
Hypothesis P_success : forall r, P r -> P (set_success r).

Lemma type_checks_pres a : sm_pres (fun l => P (l_results l)) (type_checks a).
Proof. unfold type_checks. pres_split. Qed.

Lemma run_events_pres dry evs :
  (forall o, sm_pres (fun l => P (l_results l)) (run_op w dry o)) ->
  sm_pres (fun l => P (l_results l)) (run_events w dry evs).
Proof.
  intros Hop. induction evs as [|[o|m] evs IH]; simpl; [apply pres_ret| |done].
  apply pres_bind; [apply Hop|intros _; apply IH].
Qed.

Lemma sync_body_pres a :
  (forall o, sm_pres (fun l => P (l_results l)) (run_op w (truthy (a_dry_run a)) o)) ->
  sm_pres (fun l => P (l_results l)) (sync_body w a).
Proof.
  intros Hop. unfold sync_body.
  apply pres_bind; [apply type_checks_pres|intros _].
  cbv zeta.
  apply pres_bind; [apply pres_modify; intros l; apply P_paths|intros _].
  apply pres_bind; [apply pres_modify; intros l; done|intros _].
  pres_split; try (apply pres_modify; intros l; simpl; auto);
    try (apply run_events_pres; exact Hop).
Qed.

Lemma sync_inv a r :
  P Results_init ->
  (forall o, sm_pres (fun l => P (l_results l)) (run_op w (truthy (a_dry_run a)) o)) ->
  sync w a = inr r -> P r.
Proof.
  intros H0 Hop. unfold sync.
  pose proof (sync_body_pres a Hop (mkLocals Results_init None None false) H0) as Hl.
  destruct (sync_body w a _) as [l res]. simpl in Hl.
  destruct (l_handler_file l); [|congruence].
  destruct (l_tmp_log_file l), (l_log_file l); try congruence.
  destruct (w_replace w _ _); congruence.
Qed.
End SyncInv.

Lemma counter_bump c c' r : counter c' (bump c r) = counter c' r + one_if c c'.
Proof. destruct c'; reflexivity. Qed.

Lemma err_count_bump c r :
  err_count (bump c r) = err_count r + one_if c CreateE + one_if c RenameE + one_if c UpdateE
    + one_if c DeleteE + one_if c DirCreateE + one_if c DirDeleteE.
Proof. unfold err_count. simpl. lia. Qed.

(** [Results.err_count] always equals the number of messages in
    [Results.errors]: every error counted in the loop appends exactly one
    summary, and nothing else touches either. *)
Theorem sync_err_count_errors w a r :
  sync w a = inr r -> err_count r = Z.of_nat (length (errors r)).
Proof.
  apply (sync_inv w (fun r => err_count r = Z.of_nat (length (errors r)))).
  - intros t lf r' H. exact H.
  - intros r' H. exact H.
  - reflexivity.
  - intros o l H. unfold run_op.
    destruct (truthy (a_dry_run a)); [exact H|].
    destruct (op_branch (op_kind o)) as [[[cs ce] adds]|] eqn:Hb; [|exact H].
    unfold op_branch in Hb.
    destruct (w_apply w o) as [[]|]; simpl; try exact H;
      repeat (case_bool_decide; [injection Hb as <- <- <-|]); try discriminate;
      try (destruct adds); unfold add_error, add_byte_diff; rewrite ?err_count_bump;
      simpl; rewrite ?length_app; simpl; unfold one_if; simpl;
      rewrite ?err_count_bump in *; unfold err_count in *; simpl in *; lia.
Qed.

Lemma type_checks_state a l : (type_checks a l).1 = l.
Proof.
  assert (H : sm_pres (fun l' => l' = l) (type_checks a)) by (unfold type_checks; pres_split).
  by apply H.
Qed.

Lemma bind_state_eq {A B} (m : SM A) (f : A -> SM B) l :
  (m ≫= f) l = match m l with (l', inr a) => f a l' | (l', inl e) => (l', inl e) end.
Proof. reflexivity. Qed.

(** In a dry run nothing is counted: the returned [Results] has every
    counter, the byte difference and the error list at zero. *)
Theorem sync_dry_run_clean w a r :
  a_dry_run a = PBool true -> sync w a = inr r -> results_clean r.
Proof.
  intros Hd. apply (sync_inv w results_clean).
  - intros t lf r' H. exact H.
  - intros r' H. exact H.
  - split; [intros []; reflexivity|split; reflexivity].
  - intros o l H. rewrite Hd. exact H.
Qed.

(** An argument of the wrong type: [sync] returns a fresh [Results]
    (no paths set, [success] false, nothing counted). *)
Theorem sync_type_error w a :
  (type_checks a (mkLocals Results_init None None false)).2 <> inr tt ->
  sync w a = inr Results_init.
Proof.
  intros H. unfold sync, sync_body. rewrite bind_state_eq.
  pose proof (type_checks_state a (mkLocals Results_init None None false)) as Hs.
  destruct (type_checks a _) as [l1 [e|[]]]; [|done]. simpl in Hs. subst l1. reflexivity.
Qed.

(** [src] or [dst] exists but is not a directory, or both resolve to
    the same directory: [sync] returns [Results] with [success] false and
    nothing counted. *)
Theorem sync_invalid_roots w a :
  (type_checks a (mkLocals Results_init None None false)).2 = inr tt ->
  (w_exists w (path_of (a_src a)) && negb (w_is_dir w (path_of (a_src a))) ||
   w_exists w (path_of (a_dst a)) && negb (w_is_dir w (path_of (a_dst a))) ||
   bool_decide (w_resolve w (path_of (a_src a)) = w_resolve w (path_of (a_dst a)))) = true ->
  exists r, sync w a = inr r /\ success r = false /\ results_clean r.
Proof.
  intros Ht Hv. unfold sync, sync_body. rewrite bind_state_eq.
  pose proof (type_checks_state a (mkLocals Results_init None None false)) as Hs.
  destruct (type_checks a _) as [l1 r1]. simpl in Ht, Hs. subst l1 r1.
  cbv zeta. rewrite !bind_state_eq. simpl.
  destruct (w_exists w (path_of (a_src a)) && negb (w_is_dir w (path_of (a_src a)))); simpl.
  { eexists; split; [reflexivity|]. split; [done|]. split; [intros []; done|done]. }
  rewrite bind_state_eq.
  destruct (w_exists w (path_of (a_dst a)) && negb (w_is_dir w (path_of (a_dst a)))); simpl.
  { eexists; split; [reflexivity|]. split; [done|]. split; [intros []; done|done]. }
  rewrite bind_state_eq.
  destruct (bool_decide _); simpl; [|discriminate].
  eexists; split; [reflexivity|]. split; [done|]. split; [intros []; done|done].
Qed.

Lemma counter_add_error c m r : counter c (add_error m r) = counter c r.
Proof. destruct c; reflexivity. Qed.
Lemma counter_add_byte_diff c z r : counter c (add_byte_diff z r) = counter c r.
Proof. destruct c; reflexivity. Qed.

Lemma op_branch_one_if k k' cs ce b cs' ce' b' :
  op_branch k = Some (cs, ce, b) -> op_branch k' = Some (cs', ce', b') ->
  one_if cs' cs + one_if cs' ce = (if bool_decide (k' = k) then 1 else 0) /\
  one_if ce' cs + one_if ce' ce = (if bool_decide (k' = k) then 1 else 0).
Proof.
  unfold op_branch. intros H H'.
  repeat (case_bool_decide; subst; simplify_eq); try discriminate; split; reflexivity.
Qed.

(** The loop of [sync] over the operation stream, when it runs to the
    end outside a dry run, counts each operation exactly once: for every
    kind, its success counter plus its error counter grow by the number of
    operations of that kind; [byte_diff] grows by the byte deltas of the
    deletions, creations and updates that succeeded, and by nothing else. *)
Theorem run_events_accounting w evs l l' :
  run_events w false evs l = (l', inr tt) ->
  (forall k cs ce b, op_branch k = Some (cs, ce, b) ->
     counter cs (l_results l') + counter ce (l_results l') =
     counter cs (l_results l) + counter ce (l_results l) + count_kind k evs) /\
  byte_diff (l_results l') = byte_diff (l_results l) + applied_delta w evs.
Proof.
  unfold count_kind, applied_delta.
  revert l. induction evs as [|[o|m] evs IH]; intros l H; simpl in H.
  - injection H as <-. simpl. split; [intros; lia|lia].
  - rewrite bind_state_eq in H. unfold run_op in H.
    change (yields (Yield o :: evs)) with (o :: yields evs). cbn [foldr].
    destruct (op_branch (op_kind o)) as [[[cs' ce'] b']|] eqn:Hb; [|discriminate].
    destruct (w_apply w o) as [[]|] eqn:Ha; try discriminate;
      destruct (IH _ H) as [IHc IHb]; cbn [l_results modify_results sm_modify] in IHc, IHb;
      (split; [intros kk cs ce b Hk; rewrite (IHc kk cs ce b Hk), filter_cons;
               destruct (op_branch_one_if _ _ _ _ _ _ _ _ Hk Hb) as [E1 E2];
               case_decide as Hd;
               [rewrite bool_decide_true in E1, E2 by done|rewrite bool_decide_false in E1, E2 by done];
               rewrite ?counter_add_error;
               try (destruct b'; rewrite ?counter_add_byte_diff);
               rewrite ?counter_bump;
               simpl length; lia
              |rewrite IHb; try destruct b'; simpl; lia]).
  - apply IH, H.
Qed.

(** ** Witnesses: the hypotheses of the theorems above hold on concrete runs *)

Lemma rename_ambiguity_total_witness :
  ambiguous_sig Ex.S3 Ex.D3 (mkMeta 100 1) /\
  forall o, o ∈ yields (_operations Ex.S3 Ex.D3 Ex.v_same (Some "T") (Some 0) true).1 ->
  op_kind o = "R" ->
  exists y x ry rx m,
    relpath_to_stats Ex.D3 !! y = Some m /\ relpath_to_stats Ex.S3 !! x = Some m /\
    real_names Ex.D3 !! y = Some ry /\ real_names Ex.S3 !! x = Some rx /\
    o = rename_op Ex.D3 ry rx /\ m <> mkMeta 100 1.
Proof.
  assert (H : ambiguous_sig Ex.S3 Ex.D3 (mkMeta 100 1)).
  { left. exists "x1", "x2". repeat split; vm_compute; congruence. }
  split; [exact H|]. apply (rename_ambiguity_total _ _ _ _ _ _ _ H).
Defined.

Lemma update_by_mtime_witness :
  (_operations Ex.S_upd Ex.D_upd Ex.v_same (Some "T") (Some 0) true).2 = inr tt /\
  Yield (update_op Ex.S_upd Ex.D_upd "new" "new" (mkMeta 100 9) (mkMeta 40 1))
    ∈ (_operations Ex.S_upd Ex.D_upd Ex.v_same (Some "T") (Some 0) true).1 /\
  Warn (older_msg "old") ∈ (_operations Ex.S_upd Ex.D_upd Ex.v_same (Some "T") (Some 0) true).1 /\
  Warn (older_msg "eq") ∉ (_operations Ex.S_upd Ex.D_upd Ex.v_same (Some "T") (Some 0) true).1.
Proof.
  assert (Hc : (_operations Ex.S_upd Ex.D_upd Ex.v_same (Some "T") (Some 0) true).2 = inr tt)
    by (vm_compute; reflexivity).
  destruct (update_by_mtime _ _ _ _ _ _ Hc) as [Hp _].
  split; [exact Hc|]. split; [|split].
  - apply (Hp "new"); vm_compute; (reflexivity || lia).
  - apply (Hp "old" "old" "old" (mkMeta 40 1) (mkMeta 100 9)); vm_compute; (reflexivity || lia).
  - intros Hw. apply (Hp "eq" "eq" "eq" (mkMeta 5 5) (mkMeta 5 5)) in Hw;
      [simpl in Hw; lia | vm_compute; reflexivity ..].
Defined.

Lemma rename_threshold_inclusive_witness :
  Yield (delete_op Ex.D_ren "T" "old.bin" (mkMeta 20000 7))
    ∈ (_operations Ex.S_ren Ex.D_ren Ex.v_same (Some "T") (Some 20001) false).1 /\
  Yield (create_op Ex.S_ren Ex.D_ren "new.bin" (mkMeta 20000 7))
    ∈ (_operations Ex.S_ren Ex.D_ren Ex.v_same (Some "T") (Some 20001) false).1 /\
  Yield (rename_op Ex.D_ren "old.bin" "new.bin")
    ∈ (_operations Ex.S_ren Ex.D_ren Ex.v_same (Some "T") (Some 20000) true).1.
Proof.
  destruct (rename_threshold_inclusive Ex.S_ren Ex.D_ren Ex.v_same (Some "T") false)
    as (_ & H2 & _).
  destruct (rename_threshold_inclusive Ex.S_ren Ex.D_ren Ex.v_same (Some "T") true)
    as (_ & _ & H3).
  destruct (H2 20001 "T" "old.bin" "new.bin" (mkMeta 20000 7) "old.bin" "new.bin")
    as [Hd Hc]; try (vm_compute; reflexivity); try (simpl; lia).
  split; [exact Hd|split; [exact Hc|]].
  - apply (H3 20000 "old.bin" "new.bin" (mkMeta 20000 7)); try (vm_compute; reflexivity); try (simpl; lia).
    + intros z Hz _. destruct (decide (z = "old.bin")) as [->|Hne]; [done|].
      exfalso. unfold Ex.D_ren, Ex.fl in Hz. simpl in Hz.
      rewrite lookup_insert_ne in Hz by congruence. by rewrite lookup_empty in Hz.
    + intros z Hz _. destruct (decide (z = "new.bin")) as [->|Hne]; [done|].
      exfalso. unfold Ex.S_ren, Ex.fl in Hz. simpl in Hz.
      rewrite lookup_insert_ne in Hz by congruence. by rewrite lookup_empty in Hz.
Defined.

Lemma filter_first_match_witness :
  glob_translate ["a"; "/"; "b"; "/"]%char true true = Some (RSeq (map RLit ["a"; "/"; "b"; "/"]%char)) /\
  re_fullmatch (RSeq (map RLit ["a"; "/"; "b"; "/"]%char)) "a/b/c.txt" = false /\
  ("a/x/"%string = ""%string \/ exists q0, "a/x/"%string = (q0 +:+ "/")%string).
Proof.
  destruct filter_first_match as (_ & Hplain & Hdir & _).
  assert (Hp : Forall plain_char ["a"; "/"; "b"; "/"]%char).
  { repeat constructor; unfold plain_char; repeat split; discriminate. }
  destruct (Hplain _ true true Hp) as [Ht Hq].
  split; [exact Ht|]. split; [rewrite Hq; vm_compute; reflexivity|].
  destruct (glob_translate (["a"; "/"; "*"]%char ++ ["/"%char]) true false) as [r|] eqn:E;
    [|vm_compute in E; discriminate].
  apply (Hdir _ _ _ r "a/x/"%string E).
  vm_compute in E. injection E as <-. vm_compute. reflexivity.
Defined.
Lemma operations_determined_by_reads_witness :
  fs_last_bytes Ex.v_same "D/other" <> fs_last_bytes Ex.v_cand "D/other" /\
  _operations Ex.S_ren Ex.D_ren Ex.v_same None (Some 10000) false =
  _operations Ex.S_ren Ex.D_ren Ex.v_cand None (Some 10000) false.
Proof.
  split; [vm_compute; discriminate|].
  apply operations_determined_by_reads.
  - intros relpath r Hin. exfalso. apply elem_of_difference in Hin as [Hin _].
    vm_compute in Hin. set_solver.
  - intros t x y m Ht _ _ Hx _ Hy _ _ _.
    assert (Hs : src_only_relpaths Ex.S_ren Ex.D_ren = ["new.bin"]%string)
      by (vm_compute; reflexivity).
    assert (Hd : dst_only_relpaths Ex.S_ren Ex.D_ren = ["old.bin"]%string)
      by (vm_compute; reflexivity).
    rewrite Hs in Hx. rewrite Hd in Hy.
    apply list_elem_of_singleton in Hx, Hy. subst x y.
    split; vm_compute; reflexivity.
Defined.


Lemma copy_success_witness :
  fs_files (cs_fs (_copy (fun _ => None) ["s"; "f"]%string ["d"; "f"]%string true
                     (mkCS Ex.disk_copy 0 false false)).1) !! tempcopy ["d"; "f"]%string = None /\
  fs_files (cs_fs (_copy (fun _ => None) ["s"; "f"]%string ["d"; "f"]%string true
                     (mkCS Ex.disk_copy 0 false false)).1) !! ["s"; "f"]%string =
  Some (mkFile "xyz" 420 7).
Proof.
  destruct (copy_success (fun _ => None) ["s"; "f"]%string ["d"; "f"]%string true
              (mkCS Ex.disk_copy 0 false false)
              (_copy (fun _ => None) ["s"; "f"]%string ["d"; "f"]%string true
                 (mkCS Ex.disk_copy 0 false false)).1) as (f & Hf & _ & Ht & Ho).
  - apply (bool_decide_eq_false_1 (tempcopy ["d"; "f"]%string ∈ fs_dirs Ex.disk_copy)).
    vm_compute. reflexivity.
  - vm_compute. reflexivity.
  - split; [exact Ht|]. rewrite Ho; [reflexivity| |]; vm_compute; discriminate.
Defined.

Lemma copy_exists_raises_witness :
  _copy (fun _ => None) ["s"; "f"]%string ["s"]%string true (mkCS Ex.disk_copy 0 false false) =
  (mkCS Ex.disk_copy 0 false false, inl (OSError FileExistsError)).
Proof. apply copy_exists_raises. vm_compute. reflexivity. Defined.

Lemma move_files_witness :
  fs_files (_move false ["r"; "a.txt"]%string ["r"; "b.txt"]%string false (Some ["r"]%string)
              Ex.disk_case).1 = {[ ["r"; "b.txt"]%string := mkFile "xyz" 420 7 ]} /\
  fs_files (_move false ["r"; "a.txt"]%string ["r"; "b.txt"]%string false (Some ["r"]%string)
              Ex.disk_case).1 !! ["r"; "a.txt"]%string = None.
Proof.
  destruct (move_files false ["r"; "a.txt"]%string ["r"; "b.txt"]%string false (Some ["r"]%string)
              Ex.disk_case
              (_move false ["r"; "a.txt"]%string ["r"; "b.txt"]%string false (Some ["r"]%string)
                 Ex.disk_case).1) as (f & Hf & _ & Hd & Hs); [vm_compute; reflexivity|].
  split; [|exact Hs].
  rewrite Hd. vm_compute in Hf. injection Hf as <-. vm_compute. reflexivity.
Defined.

Lemma sync_err_count_errors_witness :
  err_count (match sync Ex.w_upd Ex.args_plain with inr r => r | inl _ => Results_init end) =
  Z.of_nat (length (errors (match sync Ex.w_upd Ex.args_plain with
                            | inr r => r | inl _ => Results_init end))).
Proof. apply (sync_err_count_errors Ex.w_upd Ex.args_plain). vm_compute. reflexivity. Defined.

Lemma sync_dry_run_clean_witness :
  results_clean (match sync Ex.w_upd Ex.args_dry with inr r => r | inl _ => Results_init end).
Proof.
  apply (sync_dry_run_clean Ex.w_upd Ex.args_dry); [reflexivity|vm_compute; reflexivity].
Defined.

Lemma sync_type_error_witness : sync Ex.w_upd Ex.args_int_src = inr Results_init.
Proof. apply sync_type_error. vm_compute. discriminate. Defined.

Lemma sync_invalid_roots_witness :
  exists r, sync Ex.w_upd Ex.args_same = inr r /\ success r = false /\ results_clean r.
Proof. apply sync_invalid_roots; vm_compute; reflexivity. Defined.

Lemma run_events_accounting_witness :
  counter UpdateS (l_results (run_events Ex.w_upd false Ex.evs_mixed
                                (mkLocals Results_init None None false)).1) +
  counter UpdateE (l_results (run_events Ex.w_upd false Ex.evs_mixed
                                (mkLocals Results_init None None false)).1) =
  0 + 0 + count_kind "U" Ex.evs_mixed /\
  byte_diff (l_results (run_events Ex.w_upd false Ex.evs_mixed
                          (mkLocals Results_init None None false)).1) =
  0 + applied_delta Ex.w_upd Ex.evs_mixed.
Proof.
  destruct (run_events_accounting Ex.w_upd Ex.evs_mixed (mkLocals Results_init None None false)
              (run_events Ex.w_upd false Ex.evs_mixed (mkLocals Results_init None None false)).1)
    as [Hc Hb]; [vm_compute; reflexivity|].
  split; [apply (Hc "U" UpdateS UpdateE true); reflexivity|exact Hb].
Defined.
